(** * visWeather: the raster / overlay pipeline of [Main.cpp]

    A shallow embedding of the numeric core of [Main.cpp]: [GetMinMax],
    [GetBounds], [CreateColormapImage] and [CoastlineOverlay].

    A C++ [double] is a primitive binary64 [float]; comparisons and
    arithmetic are the IEEE 754 operations, specified by [SpecFloat]. *)

From Stdlib Require Import ZArith List Bool Lia Floats Permutation Sorted.
From Stdlib Require String.
Import ListNotations.

Local Open Scope float_scope.

(** ** Values of the Siv3D library that [Main.cpp] computes with *)

Module Siv3D.

(** [Grid<T>]: a row-major buffer with its dimensions; [data[y][x]] reads
    the buffer at [y * width + x]. *)
Record Grid (T : Type) : Type := mkGrid {
  m_data : list T;
  m_width : nat;
  m_height : nat
}.
Arguments mkGrid {T} _ _ _.
Arguments m_data {T} _.
Arguments m_width {T} _.
Arguments m_height {T} _.

Definition INT32_MAX : Z := 2147483647.

(** The class invariant of [Grid]: the buffer holds [width * height]
    elements.  The loops of [Main.cpp] keep both dimensions in an [int32];
    [Grid_ok] also asks that they fit. *)
Definition Grid_ok {T} (g : Grid T) : Prop :=
  length (m_data g) = (m_height g * m_width g)%nat /\
  (Z.of_nat (m_width g) <= INT32_MAX)%Z /\
  (Z.of_nat (m_height g) <= INT32_MAX)%Z.

(** [data[y][x]]; [d] stands for a read outside the buffer, which the loops
    below never make on a grid that is [Grid_ok] ([scan_cells]). *)
Definition Grid_at {T} (g : Grid T) (d : T) (y x : nat) : T :=
  nth (y * m_width g + x)%nat (m_data g) d.

(** [img[y][x] = c]: the buffer updated in place at [y * width + x]. *)
Fixpoint list_set {T} (l : list T) (i : nat) (c : T) : list T :=
  match l, i with
  | [], _ => []
  | _ :: l', O => c :: l'
  | a :: l', S i' => a :: list_set l' i' c
  end.

Definition Grid_set {T} (g : Grid T) (y x : nat) (c : T) : Grid T :=
  mkGrid (list_set (m_data g) (y * m_width g + x)%nat c) (m_width g) (m_height g).

(** [static_cast<int32>(size_t)]: reduction modulo 2^32 into the signed
    range. *)
Definition int32_of_size (n : nat) : Z :=
  let r := (Z.of_nat n mod 4294967296)%Z in
  if (r <? 2147483648)%Z then r else (r - 4294967296)%Z.

(** [for (int32 i = 0; i < n; ++i) body]: the state after the loop. *)
Definition for_int32 {S : Type} (n : Z) (body : nat -> S -> S) (s : S) : S :=
  fold_left (fun acc i => body i acc) (seq 0 (Z.to_nat n)) s.

(** [Min] and [Max] of two doubles, as [std::min] and [std::max]. *)
Definition Min (a b : float) : float := if b <? a then b else a.
Definition Max (a b : float) : float := if a <? b then b else a.

(** [Clamp(v, min, max)]: [max] if [max < v], else [min] if [v < min],
    else [v]. *)
Definition Clamp (v lo hi : float) : float :=
  if hi <? v then hi else if v <? lo then lo else v.

Record Vec2 : Type := mkVec2 { vx : float; vy : float }.

(** [RectF]: position and size. *)
Record RectF : Type := mkRectF {
  rx : float; ry : float; rw : float; rh : float
}.

Definition RectF_pos (r : RectF) : Vec2 := mkVec2 (rx r) (ry r).
Definition RectF_size (r : RectF) : Vec2 := mkVec2 (rw r) (rh r).

Definition Vec2_add (a b : Vec2) : Vec2 := mkVec2 (vx a + vx b) (vy a + vy b).
Definition Vec2_sub (a b : Vec2) : Vec2 := mkVec2 (vx a - vx b) (vy a - vy b).
Definition Vec2_mul (a b : Vec2) : Vec2 := mkVec2 (vx a * vx b) (vy a * vy b).
Definition Vec2_div (a b : Vec2) : Vec2 := mkVec2 (vx a / vx b) (vy a / vy b).
Definition Vec2_scale (a : Vec2) (k : float) : Vec2 :=
  mkVec2 (vx a * k) (vy a * k).

(** An [int32] converted to [double] (exact). *)
Definition double_of_int32 (z : Z) : float :=
  if (z <? 0)%Z then - of_uint63 (Uint63.of_Z (- z))
  else of_uint63 (Uint63.of_Z z).

End Siv3D.
Import Siv3D.

(** ** [GetMinMax] *)

(** The locals of [GetMinMax]: [mn], [mx] and [hasMin]. *)
Record MinMaxState : Type := mkMinMax {
  mn : float;
  mx : float;
  hasMin : bool
}.

Definition GetMinMax_init : MinMaxState :=
  mkMinMax infinity neg_infinity false.

(** The body of the inner loop, at the cell value [v]. *)
Definition GetMinMax_body (s : MinMaxState) (v : float) : MinMaxState :=
  let s1 :=
    if 100 <=? v then
      mkMinMax (if negb (hasMin s) || (v <? mn s) then v else mn s)
               (mx s) true
    else s in
  mkMinMax (mn s1) (if mx s1 <? v then v else mx s1) (hasMin s1).

(** The state after both loops. *)
Definition GetMinMax_loops (data : Grid float) : MinMaxState :=
  let w := int32_of_size (m_width data) in
  let h := int32_of_size (m_height data) in
  for_int32 h (fun y s =>
    for_int32 w (fun x s => GetMinMax_body s (Grid_at data nan y x)) s)
    GetMinMax_init.

Definition GetMinMax (data : Grid float) : float * float :=
  let s := GetMinMax_loops data in
  let mn' := if negb (hasMin s) then 100 else mn s in
  (mn', mx s).

(** ** [GetBounds] *)

Record weatherData : Type := mkWeatherData {
  pmsl : Grid float;
  lats : list float;
  lons : list float
}.

Record GeoBounds : Type := mkGeoBounds {
  lonMin : float; lonMax : float;
  latMin : float; latMax : float
}.

(** One range-for of [GetBounds]: the running (min, max) over an axis. *)
Definition bounds_scan (axis : list float) : float * float :=
  fold_left (fun b v => (Min (fst b) v, Max (snd b) v)) axis
            (infinity, neg_infinity).

Definition GetBounds (field : weatherData) : GeoBounds :=
  let lon := bounds_scan (lons field) in
  let lat := bounds_scan (lats field) in
  mkGeoBounds (fst lon) (snd lon) (fst lat) (snd lat).

(** ** How a call ends

    [Main.cpp] signals failure by [throw Error{...}] (in [LoadPMSL] only).
    [GetMinMax] and [GetBounds] contain no [throw] and call nothing that
    throws: every call returns. *)

Inductive Outcome (A : Type) : Type :=
| Returned (a : A)
| Thrown (what : String.string).
Arguments Returned {A} _.
Arguments Thrown {A} _.

Definition GetMinMax_call (data : Grid float) : Outcome (float * float) :=
  Returned (GetMinMax data).

Definition GetBounds_call (field : weatherData) : Outcome GeoBounds :=
  Returned (GetBounds field).

Definition is_Thrown {A} (o : Outcome A) : bool :=
  match o with Thrown _ => true | Returned _ => false end.

(** ** [CreateColormapImage] *)

Section ColormapImage.

(** [Color], [ColormapType] and [Colormap01F] belong to Siv3D; [blank] is
    the pixel of a freshly constructed [Image]. *)
Variable Color : Type.
Variable ColormapType : Type.
Variable Colormap01F : float -> ColormapType -> Color.
Variable blank : Color.

Definition Image : Type := Grid Color.

(** [Image img(w, h)]; [w] and [h] are not negative when the dimensions of
    the grid fit an [int32]. *)
Definition Image_new (w h : Z) : Image :=
  mkGrid (repeat blank (Z.to_nat h * Z.to_nat w)) (Z.to_nat w) (Z.to_nat h).

(** The argument of [Colormap01F] for a cell of value [v]: lines 68, 77
    and 78. *)
Definition normalized (vmin vmax v : float) : float :=
  let invRange := 1 / (vmax - vmin) in
  let t := (v - vmin) * invRange in
  Clamp t 0 1.

Definition CreateColormapImage (data : Grid float) (vmin vmax : float)
    (cmapType : ColormapType) : Image :=
  let invRange := 1 / (vmax - vmin) in
  let w := int32_of_size (m_width data) in
  let h := int32_of_size (m_height data) in
  for_int32 h (fun y img =>
    for_int32 w (fun x img =>
      let t := (Grid_at data nan y x - vmin) * invRange in
      let t := Clamp t 0 1 in
      Grid_set img y x (Colormap01F t cmapType)) img)
    (Image_new w h).

End ColormapImage.

(** ** [CoastlineOverlay] *)

(** Modelled from the spec: Siv3D's [Mat3x2] and [Transformer2D] are not
    among the sources.  [Mat3x2::Scale(s).translated(t)] is the affine map
    of the spec's ViewportTransform, "screenPoint = geoPoint * scale +
    translate (component-wise scale then offset)". *)
Record Mat3x2 : Type := mkMat3x2 {
  m_scale : Vec2;
  m_translate : Vec2
}.

Definition Mat3x2_Scale_translated (s t : Vec2) : Mat3x2 := mkMat3x2 s t.

Definition Mat3x2_transformPoint (m : Mat3x2) (p : Vec2) : Vec2 :=
  Vec2_add (Vec2_mul p (m_scale m)) (m_translate m).

Section Coastline.

(** [MultiPolygon], its [computeBoundingRect] and [RectF::intersects]
    belong to Siv3D. *)
Variable MultiPolygon : Type.
Variable computeBoundingRect : MultiPolygon -> RectF.
Variable intersects : RectF -> RectF -> bool.

Record CoastlineOverlay : Type := mkCoastlineOverlay {
  countries_ : list MultiPolygon;
  visibleIndices_ : list nat;
  m_w : Z;
  m_h : Z
}.

(** [Indexed(countries_)]: each element with its index. *)
Definition Indexed {T} (l : list T) : list (nat * T) :=
  combine (seq 0 (length l)) l.

(** The constructor, given the polygons read from the GeoJSON file. *)
Definition CoastlineOverlay_new (loaded : list MultiPolygon)
    (geoViewRectLonY : RectF) : CoastlineOverlay :=
  let visible :=
    fold_left (fun acc ic =>
      if intersects (computeBoundingRect (snd ic)) geoViewRectLonY
      then acc ++ [fst ic] else acc) (Indexed loaded) [] in
  mkCoastlineOverlay loaded visible 1 1.

Definition setGridSize (self : CoastlineOverlay) (w h : Z) : CoastlineOverlay :=
  mkCoastlineOverlay (countries_ self) (visibleIndices_ self) w h.

(** The matrix handed to [Transformer2D] in [draw]: lines 167 to 178. *)
Definition draw_transform (self : CoastlineOverlay) (destRect : RectF)
    (lonMin lonMax yMin yMax : float) : Mat3x2 :=
  let pixelSize :=
    Vec2_div (RectF_size destRect)
             (mkVec2 (1 * double_of_int32 (m_w self))
                     (1 * double_of_int32 (m_h self))) in
  let halfPixel := Vec2_scale pixelSize 0.5 in
  let sx := (rw destRect - vx pixelSize) / (lonMax - lonMin) in
  let sy := (rh destRect - vy pixelSize) / (yMax - yMin) in
  let translate :=
    Vec2_sub (Vec2_add (RectF_pos destRect) halfPixel)
             (mkVec2 (lonMin * sx) (yMin * sy)) in
  Mat3x2_Scale_translated (mkVec2 sx sy) translate.

(** One [drawFrame] call issued by [draw]. *)
Record FrameCall : Type := mkFrameCall {
  fc_polygon : MultiPolygon;
  fc_thickness : float;
  fc_transform : Mat3x2
}.

(** [draw]: the frames stroked, in order; [maxScaling] is
    [Graphics2D::GetMaxScaling()]. *)
Definition draw (self : CoastlineOverlay) (maxScaling : float)
    (destRect : RectF) (lonMin lonMax yMin yMax : float) : list FrameCall :=
  let t := draw_transform self destRect lonMin lonMax yMin yMax in
  let lineThickness := 1 / maxScaling in
  flat_map (fun i =>
    match nth_error (countries_ self) i with
    | Some c => [mkFrameCall c lineThickness t]
    | None => []
    end) (visibleIndices_ self).

End Coastline.

Arguments countries_ {MultiPolygon} _.
Arguments visibleIndices_ {MultiPolygon} _.
Arguments m_w {MultiPolygon} _.
Arguments m_h {MultiPolygon} _.
Arguments setGridSize {MultiPolygon} _ _ _.
Arguments draw_transform {MultiPolygon} _ _ _ _ _ _.
Arguments CoastlineOverlay_new {MultiPolygon} _ _ _ _.

(** ** [LoadPMSL] *)

(** The names and the message of [LoadPMSL]. *)
Module NcNames.
Import String.StringSyntax.
Local Open Scope string_scope.

Definition latitude : String.string := "latitude".
Definition longitude : String.string := "longitude".
Definition msl : String.string := "msl".
Definition not_found : String.string :=
  "latitude / longitude / msl が見つかりません".

End NcNames.

(** A variable of an open NetCDF file, as [LoadPMSL] uses it: the size of
    its first dimension, and the value a read leaves at index [k] of the
    destination buffer. *)
Record NcVar : Type := mkNcVar {
  nc_size : nat;
  nc_value : nat -> float
}.

(** An open file: [nc.getVar(name)], [None] being the null handle. *)
Definition NcFile : Type := String.string -> option NcVar.

(** [for (size_t i = 0; i < n; ++i) body]: the state after the loop. *)
Definition for_size {S : Type} (n : nat) (body : nat -> S -> S) (s : S) : S :=
  fold_left (fun acc i => body i acc) (seq 0 n) s.

(** [Array::resize(n)]: the first [n] elements, padded with [d]. *)
Definition Array_resize {T} (l : list T) (n : nat) (d : T) : list T :=
  firstn n l ++ repeat d (n - length l).

(** [Grid::resize(w, h)]: a buffer of [w * h] cells; every cell is
    written by [LoadPMSL] afterwards. *)
Definition Grid_resize {T} (g : Grid T) (w h : nat) (d : T) : Grid T :=
  mkGrid (Array_resize (m_data g) (h * w) d) w h.

(** The double nearest to 0.01. *)
Definition hPa_per_Pa : float := 0x1.47ae147ae147bp-7.

(** [LoadPMSL(field, ncPath)] on the opened file [nc]: the field after the
    call and how the call ends.  The values of [buf] are [float]s widened
    to [double]. *)
Definition LoadPMSL (field : weatherData) (nc : NcFile)
    : weatherData * Outcome unit :=
  match nc NcNames.latitude, nc NcNames.longitude, nc NcNames.msl with
  | Some latVar, Some lonVar, Some mslVar =>
      let nLat := nc_size latVar in
      let nLon := nc_size lonVar in
      let lats' := map (nc_value latVar) (seq 0 nLat) in
      let lons' := map (nc_value lonVar) (seq 0 nLon) in
      let buf := map (nc_value mslVar) (seq 0 (nLat * nLon)) in
      let pmsl0 := Grid_resize (pmsl field) nLon nLat 0 in
      let pmsl' :=
        for_size nLat (fun j g =>
          for_size nLon (fun i g =>
            let pa := nth (j * nLon + i)%nat buf 0 in
            Grid_set g j i (pa * hPa_per_Pa)) g) pmsl0 in
      (mkWeatherData pmsl' lats' lons', Returned tt)
  | _, _, _ => (field, Thrown NcNames.not_found)
  end.

(** ** [Main], before the loop *)

(** Lines 218 to 224: the range of the field and its colour image. *)
Definition Main_colormap (Color ColormapType : Type)
    (Colormap01F : float -> ColormapType -> Color) (blank : Color)
    (Turbo : ColormapType) (field : weatherData) : Grid Color :=
  let '(pmin, pmax) := GetMinMax (pmsl field) in
  let vmin := pmin in
  let vmax := pmax in
  CreateColormapImage Color ColormapType Colormap01F blank
                      (pmsl field) vmin vmax Turbo.

(** Lines 227 to 234: the visible rectangle, in longitude and -latitude. *)
Definition Main_geoViewRect (field : weatherData) : RectF :=
  let bounds := GetBounds field in
  let yMin := - latMax bounds in
  let yMax := - latMin bounds in
  mkRectF (lonMin bounds) yMin (lonMax bounds - lonMin bounds) (yMax - yMin).

(** ** Vocabulary of the statements *)

(** [lo] is the least of the values: it is one of them and it is [<=]
    every value that is a number. *)
Definition min_over (values : list float) (lo : float) : Prop :=
  In lo values /\
  forall v, In v values -> is_nan v = false -> (lo <=? v) = true.

(** The body of a range-for of [GetBounds]. *)
Definition bounds_step (b : float * float) (v : float) : float * float :=
  (Min (fst b) v, Max (snd b) v).

(** The invariant of a range-for of [GetBounds], [seen] being the values
    visited so far and [b] the running (min, max). *)
Record BoundsInv (seen : list float) (b : float * float) : Prop :=
  mkBoundsInv {
  binv_lo_num : is_nan (fst b) = false;
  binv_lo_in : fst b = infinity \/ In (fst b) seen;
  binv_lo_low : forall v, In v seen -> (v <? fst b) = false;
  binv_hi_num : is_nan (snd b) = false;
  binv_hi_in : snd b = neg_infinity \/ In (snd b) seen;
  binv_hi_top : forall v, In v seen -> (snd b <? v) = false
}.

(** Classes of a [spec_float]. *)
Definition is_S754_zero (x : spec_float) : bool :=
  match x with S754_zero _ => true | _ => false end.

Definition is_S754_nan (x : spec_float) : bool :=
  match x with S754_nan => true | _ => false end.

(** [x] is a zero, a number or an infinity of sign [s]. *)
Definition has_sign (s : bool) (x : spec_float) : bool :=
  match x with
  | S754_zero s' | S754_infinity s' | S754_finite s' _ _ => Bool.eqb s s'
  | S754_nan => false
  end.

(** [x] is a number or an infinity of sign [s], not a zero. *)
Definition nonzero_of_sign (s : bool) (x : spec_float) : bool :=
  match x with
  | S754_infinity s' | S754_finite s' _ _ => Bool.eqb s s'
  | _ => false
  end.

(** [lo] is the least of the cells that are [>= 100]. *)
Definition min_over_valid (cells : list float) (lo : float) : Prop :=
  In lo cells /\ (100 <=? lo) = true /\
  forall v, In v cells -> (100 <=? v) = true -> (lo <=? v) = true.

(** [hi] is the greatest of the cells: it is one of them and every cell
    that is a number is [<= hi]. *)
Definition max_over (cells : list float) (hi : float) : Prop :=
  In hi cells /\
  forall v, In v cells -> is_nan v = false -> (v <=? hi) = true.

Definition scan (cells : list float) : MinMaxState :=
  fold_left GetMinMax_body cells GetMinMax_init.

(** The loop invariant, [cells] being the cells visited so far. *)
Record Inv (cells : list float) (s : MinMaxState) : Prop := mkInv {
  inv_none : hasMin s = false ->
             forall v, In v cells -> (100 <=? v) = false;
  inv_mn_in : hasMin s = true -> In (mn s) cells;
  inv_mn_valid : hasMin s = true -> (100 <=? mn s) = true;
  inv_mn_least : hasMin s = true ->
                 forall v, In v cells -> (100 <=? v) = true ->
                 (v <? mn s) = false;
  inv_mx_num : is_nan (mx s) = false;
  inv_mx_in : mx s = neg_infinity \/ In (mx s) cells;
  inv_mx_top : forall v, In v cells -> (mx s <? v) = false
}.

(** ** Sample inputs *)

(** The grid of the end-to-end scenario, [[50, 150], [300, 100]], and the
    same cells in the opposite order. *)
Definition scenario_grid : Grid float := mkGrid [50; 150; 300; 100] 2 2.
Definition scenario_grid_rev : Grid float := mkGrid [100; 300; 150; 50] 2 2.

Definition empty_grid : Grid float := mkGrid [] 0 0.

(** A grid with cells that are not numbers, the grid of its numbers, and
    a grid without any number. *)
Definition gappy_grid : Grid float := mkGrid [nan; 150; nan; 50] 2 2.
Definition gappy_grid_numbers : Grid float := mkGrid [150; 50] 2 1.
Definition all_nan_grid : Grid float := mkGrid [nan; nan] 2 1.

(** The field of the end-to-end scenario, and a uniform field. *)
Definition scenario_field : weatherData :=
  mkWeatherData scenario_grid [0; 1] [0; 1].
Definition uniform_field : weatherData :=
  mkWeatherData (mkGrid [1013; 1013] 2 1) [35] [135; 136].

(** A file with two latitudes, two longitudes and four pressures in
    pascals, and a file without the pressure variable. *)
Definition sample_nc : NcFile :=
  fun name =>
    if String.eqb name NcNames.latitude then
      Some (mkNcVar 2 (fun k => nth k [36; 35] 0))
    else if String.eqb name NcNames.longitude then
      Some (mkNcVar 2 (fun k => nth k [135; 136] 0))
    else if String.eqb name NcNames.msl then
      Some (mkNcVar 1 (fun k => nth k [101300; 101325; 100000; 99950] 0))
    else None.

Definition no_msl_nc : NcFile :=
  fun name =>
    if String.eqb name NcNames.latitude then
      Some (mkNcVar 2 (fun k => nth k [36; 35] 0))
    else if String.eqb name NcNames.longitude then
      Some (mkNcVar 2 (fun k => nth k [135; 136] 0))
    else None.

(** A grid whose cells are all the same. *)
Definition uniform_grid : Grid float := mkGrid [1013; 1013] 2 1.

(** A grid whose cells are all below 100. *)
Definition low_grid : Grid float := mkGrid [50; 20; 99.5; 3] 2 2.

(** A field whose longitude axis is empty. *)
Definition no_lons_field : weatherData :=
  mkWeatherData empty_grid [10; 20] [].

(** The colormap that shows its argument: the pixel is the value handed to
    the colour lookup. *)
Definition lookup_argument (t : float) (_ : unit) : float := t.

(** ** The order of binary64 values

    [<], [<=] and [==] of C++ on doubles are [ltb], [leb] and [eqb].  Their
    specification [SFcompare] is a structural comparison of sign, exponent
    and mantissa; the facts below are the ones the loops of [Main.cpp]
    rely on. *)

Module FloatOrder.

Ltac cmp_cases :=
  repeat match goal with
  | |- context [Z.compare ?a ?b] =>
      destruct (Z.compare_spec a b)
  | |- context [Pos.compare_cont Eq ?a ?b] =>
      change (Pos.compare_cont Eq a b) with (Pos.compare a b);
      destruct (Pos.compare_spec a b)
  | H : context [Z.compare ?a ?b] |- _ =>
      destruct (Z.compare_spec a b)
  | H : context [Pos.compare_cont Eq ?a ?b] |- _ =>
      change (Pos.compare_cont Eq a b) with (Pos.compare a b) in H;
      destruct (Pos.compare_spec a b)
  end.

Ltac sf_crush :=
  simpl in *; try congruence; try discriminate;
  cmp_cases; simpl in *; subst;
  try congruence; try discriminate; try lia.

Lemma SFcompare_None (x y : spec_float) :
  SFcompare x y = None <-> is_S754_nan x = true \/ is_S754_nan y = true.
Proof.
  destruct x as [sx|sx| |sx mx ex], y as [sy|sy| |sy my ey]; simpl;
    split; intros H; try discriminate; auto;
    try (destruct H; discriminate).
Qed.

Lemma SFcompare_refl (x : spec_float) :
  is_S754_nan x = false -> SFcompare x x = Some Eq.
Proof.
  destruct x as [sx|sx| |sx mx ex]; simpl; intros H; try discriminate; auto.
  - destruct sx; reflexivity.
  - destruct sx; rewrite Z.compare_refl;
      change (Pos.compare_cont Eq mx mx) with (Pos.compare mx mx);
      rewrite Pos.compare_refl; reflexivity.
Qed.

Lemma SFcompare_swap (x y : spec_float) :
  SFcompare y x = option_map CompOpp (SFcompare x y).
Proof.
  destruct x as [sx|sx| |sx mx ex], y as [sy|sy| |sy my ey]; simpl; auto;
    try (destruct sx; reflexivity); try (destruct sy; reflexivity);
    try (destruct sx, sy; reflexivity).
  change (Pos.compare_cont Eq my mx) with (Pos.compare my mx).
  change (Pos.compare_cont Eq mx my) with (Pos.compare mx my).
  rewrite (Z.compare_antisym ex ey), (Pos.compare_antisym mx my).
  destruct sx, sy; simpl; auto;
    destruct (Z.compare ex ey); simpl; auto;
    destruct (Pos.compare mx my); reflexivity.
Qed.

Lemma SFcompare_Eq_inv (x y : spec_float) :
  SFcompare x y = Some Eq ->
  x = y \/ (is_S754_zero x = true /\ is_S754_zero y = true).
Proof.
  destruct x as [sx|sx| |sx mx ex], y as [sy|sy| |sy my ey]; simpl;
    intros H; try discriminate; auto;
    try (destruct sx; discriminate); try (destruct sy; discriminate).
  - destruct sx, sy; try discriminate; auto.
  - left. destruct sx, sy; try discriminate; sf_crush;
      injection H as H; sf_crush.
Qed.

Lemma SFcompare_Lt_trans (x y z : spec_float) :
  SFcompare x y = Some Lt -> SFcompare y z = Some Lt ->
  SFcompare x z = Some Lt.
Proof.
  destruct x as [sx|sx| |sx mx ex], y as [sy|sy| |sy my ey],
           z as [sz|sz| |sz mz ez]; simpl; intros H1 H2;
    try discriminate; auto;
    try (destruct sx; try discriminate; try reflexivity);
    try (destruct sy; try discriminate; try reflexivity);
    try (destruct sz; try discriminate; try reflexivity);
    sf_crush.
Qed.

Lemma SFcompare_Eq_l (x y z : spec_float) :
  SFcompare x y = Some Eq -> SFcompare x z = SFcompare y z.
Proof.
  intros H. destruct (SFcompare_Eq_inv _ _ H) as [->|[Hx Hy]]; auto.
  destruct x, y; try discriminate. destruct z; reflexivity.
Qed.

Lemma SFcompare_Eq_r (x y z : spec_float) :
  SFcompare x y = Some Eq -> SFcompare z x = SFcompare z y.
Proof.
  intros H. destruct (SFcompare_Eq_inv _ _ H) as [->|[Hx Hy]]; auto.
  destruct x, y; try discriminate. destruct z; reflexivity.
Qed.

End FloatOrder.

(** The same facts on primitive floats, through [ltb_spec], [leb_spec] and
    [eqb_spec]. *)

Module FloatFacts.
Import FloatOrder.

Lemma is_nan_spec (x : float) :
  is_nan x = is_S754_nan (Prim2SF x).
Proof.
  unfold is_nan. rewrite eqb_spec. unfold SFeqb.
  destruct (is_S754_nan (Prim2SF x)) eqn:N.
  - destruct (Prim2SF x); try discriminate. reflexivity.
  - rewrite SFcompare_refl by assumption. reflexivity.
Qed.

Lemma is_zero_spec (x : float) :
  is_zero x = is_S754_zero (Prim2SF x).
Proof.
  unfold is_zero. rewrite eqb_spec. unfold SFeqb.
  change (Prim2SF zero) with (S754_zero false).
  destruct (Prim2SF x) as [s|s| |s m e]; simpl; auto; destruct s; reflexivity.
Qed.

(** What a comparison of two floats can answer. *)
Lemma compare_cases (x y : float) :
  (is_nan x = false /\ is_nan y = false /\
     exists c, SFcompare (Prim2SF x) (Prim2SF y) = Some c) \/
  ((is_nan x = true \/ is_nan y = true) /\
     SFcompare (Prim2SF x) (Prim2SF y) = None).
Proof.
  rewrite !is_nan_spec.
  destruct (SFcompare (Prim2SF x) (Prim2SF y)) as [c|] eqn:E.
  - left.
    assert (N : ~ (is_S754_nan (Prim2SF x) = true \/
                   is_S754_nan (Prim2SF y) = true)).
    { intros H. apply SFcompare_None in H. congruence. }
    repeat split; eauto.
    + destruct (is_S754_nan (Prim2SF x)); auto. exfalso; auto.
    + destruct (is_S754_nan (Prim2SF y)); auto. exfalso; auto.
  - right. split; auto. apply SFcompare_None; assumption.
Qed.

Lemma ltb_irrefl (x : float) : (x <? x) = false.
Proof.
  rewrite ltb_spec. unfold SFltb.
  destruct (is_S754_nan (Prim2SF x)) eqn:N.
  - destruct (Prim2SF x); try discriminate. reflexivity.
  - rewrite SFcompare_refl by assumption. reflexivity.
Qed.

Lemma ltb_trans (x y z : float) :
  (x <? y) = true -> (y <? z) = true -> (x <? z) = true.
Proof.
  rewrite !ltb_spec. unfold SFltb. intros H1 H2.
  destruct (SFcompare (Prim2SF x) (Prim2SF y)) as [[]|] eqn:E1;
    try discriminate.
  destruct (SFcompare (Prim2SF y) (Prim2SF z)) as [[]|] eqn:E2;
    try discriminate.
  rewrite (SFcompare_Lt_trans _ _ _ E1 E2). reflexivity.
Qed.

Lemma ltb_asym (x y : float) : (x <? y) = true -> (y <? x) = false.
Proof.
  intros H. destruct (y <? x) eqn:E; auto.
  pose proof (ltb_trans _ _ _ H E) as C. rewrite ltb_irrefl in C.
  discriminate.
Qed.

Lemma ltb_not_nan (x y : float) :
  (x <? y) = true -> is_nan x = false /\ is_nan y = false.
Proof.
  rewrite ltb_spec. unfold SFltb. intros H.
  destruct (compare_cases x y) as [(Nx & Ny & _)|(_ & E)]; auto.
  rewrite E in H. discriminate.
Qed.

Lemma leb_not_nan (x y : float) :
  (x <=? y) = true -> is_nan x = false /\ is_nan y = false.
Proof.
  rewrite leb_spec. unfold SFleb. intros H.
  destruct (compare_cases x y) as [(Nx & Ny & _)|(_ & E)]; auto.
  rewrite E in H. discriminate.
Qed.

Lemma leb_iff (x y : float) :
  (x <=? y) = true <-> (x <? y) = true \/ (x =? y) = true.
Proof.
  rewrite leb_spec, ltb_spec, eqb_spec. unfold SFleb, SFltb, SFeqb.
  destruct (SFcompare (Prim2SF x) (Prim2SF y)) as [[]|]; split; auto;
    intros [H|H]; auto; discriminate.
Qed.

(** On ordered (non-NaN) operands, [not (y < x)] is [x <= y]. *)
Lemma not_ltb_leb (x y : float) :
  is_nan x = false -> is_nan y = false ->
  (y <? x) = false -> (x <=? y) = true.
Proof.
  intros Nx Ny. rewrite leb_spec, ltb_spec. unfold SFleb, SFltb.
  rewrite (SFcompare_swap (Prim2SF x) (Prim2SF y)).
  destruct (compare_cases x y) as [(_ & _ & c & E)|([N|N] & _)];
    try congruence.
  rewrite E. destruct c; simpl; auto.
Qed.

Lemma leb_not_ltb (x y : float) : (x <=? y) = true -> (y <? x) = false.
Proof.
  rewrite leb_spec, ltb_spec. unfold SFleb, SFltb.
  rewrite (SFcompare_swap (Prim2SF x) (Prim2SF y)).
  destruct (SFcompare (Prim2SF x) (Prim2SF y)) as [[]|]; simpl; auto;
    discriminate.
Qed.

Lemma ltb_leb (x y : float) : (x <? y) = true -> (x <=? y) = true.
Proof. intros H. apply leb_iff. auto. Qed.

Lemma leb_refl (x : float) : is_nan x = false -> (x <=? x) = true.
Proof.
  intros N. apply not_ltb_leb; auto. apply ltb_irrefl.
Qed.

Lemma eqb_ltb_l (x y z : float) :
  (x =? y) = true -> (x <? z) = (y <? z).
Proof.
  rewrite eqb_spec, !ltb_spec. unfold SFeqb, SFltb. intros H.
  destruct (SFcompare (Prim2SF x) (Prim2SF y)) as [[]|] eqn:E;
    try discriminate.
  rewrite (SFcompare_Eq_l _ _ (Prim2SF z) E). reflexivity.
Qed.

Lemma eqb_ltb_r (x y z : float) :
  (x =? y) = true -> (z <? x) = (z <? y).
Proof.
  rewrite eqb_spec, !ltb_spec. unfold SFeqb, SFltb. intros H.
  destruct (SFcompare (Prim2SF x) (Prim2SF y)) as [[]|] eqn:E;
    try discriminate.
  rewrite (SFcompare_Eq_r _ _ (Prim2SF z) E). reflexivity.
Qed.

Lemma leb_ltb_trans (x y z : float) :
  (x <=? y) = true -> (y <? z) = true -> (x <? z) = true.
Proof.
  intros H1 H2. apply leb_iff in H1. destruct H1 as [H1|H1].
  - eapply ltb_trans; eauto.
  - rewrite (eqb_ltb_l _ _ _ H1). assumption.
Qed.

Lemma ltb_leb_trans (x y z : float) :
  (x <? y) = true -> (y <=? z) = true -> (x <? z) = true.
Proof.
  intros H1 H2. apply leb_iff in H2. destruct H2 as [H2|H2].
  - eapply ltb_trans; eauto.
  - rewrite <- (eqb_ltb_r _ _ _ H2). assumption.
Qed.

Lemma leb_trans (x y z : float) :
  (x <=? y) = true -> (y <=? z) = true -> (x <=? z) = true.
Proof.
  intros H1 H2.
  destruct (leb_not_nan _ _ H1) as [Nx _].
  destruct (leb_not_nan _ _ H2) as [_ Nz].
  apply not_ltb_leb; auto.
  destruct (z <? x) eqn:E; auto.
  pose proof (ltb_leb_trans _ _ _ E H1) as C.
  rewrite (leb_not_ltb _ _ H2) in C. discriminate.
Qed.

(** Two ordered values neither of which is below the other are the same
    double, unless both are zeros (of any sign). *)
Lemma incomparable_eq (x y : float) :
  is_nan x = false -> is_nan y = false ->
  (x <? y) = false -> (y <? x) = false ->
  x = y \/ (is_zero x = true /\ is_zero y = true).
Proof.
  intros Nx Ny. rewrite !ltb_spec, !is_zero_spec. unfold SFltb.
  rewrite (SFcompare_swap (Prim2SF x) (Prim2SF y)).
  destruct (compare_cases x y) as [(_ & _ & c & E)|([N|N] & _)];
    try congruence.
  rewrite E. destruct c; simpl; try discriminate. intros _ _.
  destruct (SFcompare_Eq_inv _ _ E) as [H|H]; auto.
  left. apply Prim2SF_inj. assumption.
Qed.

Lemma ltb_neg_infinity (x : float) : (x <? neg_infinity) = false.
Proof.
  rewrite ltb_spec. change (Prim2SF neg_infinity) with (S754_infinity true).
  unfold SFltb.
  destruct (Prim2SF x) as [s|s| |s m e]; simpl; auto; destruct s; reflexivity.
Qed.

Lemma leb_100_not_zero (x : float) : (100 <=? x) = true -> is_zero x = false.
Proof.
  intros H. unfold is_zero. destruct (x =? zero) eqn:E; auto.
  pose proof (leb_not_ltb _ _ H) as L.
  rewrite (eqb_ltb_l _ _ _ E) in L. vm_compute in L. discriminate.
Qed.

End FloatFacts.


(** ** Signs of differences, quotients and products

    [CreateColormapImage] computes [(v - vmin) * (1 / (vmax - vmin))].
    What follows is read off the specification of the binary64
    operations: a difference has the sign the comparison of its operands
    announces and is not a zero unless they are equal; rounding keeps the
    sign. *)

Module FloatArith.
Import FloatOrder FloatFacts.

Local Open Scope Z_scope.

Lemma digits2_pos_bounds (m : positive) :
  2 ^ (Zpos (digits2_pos m) - 1) <= Zpos m < 2 ^ Zpos (digits2_pos m).
Proof.
  induction m as [p IH|p IH|]; cbn [digits2_pos].
  - rewrite Pos2Z.inj_succ.
    replace (Z.succ (Z.pos (digits2_pos p)) - 1) with (Z.succ (Z.pos (digits2_pos p) - 1)) by lia.
    rewrite !Z.pow_succ_r by lia. lia.
  - rewrite Pos2Z.inj_succ.
    replace (Z.succ (Z.pos (digits2_pos p)) - 1) with (Z.succ (Z.pos (digits2_pos p) - 1)) by lia.
    rewrite !Z.pow_succ_r by lia. lia.
  - simpl. lia.
Qed.

Lemma shr_1_m (r : shr_record) :
  0 <= shr_m r -> shr_m (shr_1 r) = shr_m r / 2.
Proof.
  destruct r as [m a b]. cbn [shr_m]. intros H.
  rewrite <- Z.div2_div.
  destruct m as [|[p|p|]|p]; try reflexivity. lia.
Qed.

Lemma iter_shr_1_m (p : positive) :
  forall r, 0 <= shr_m r ->
  shr_m (iter_pos shr_1 p r) = shr_m r / 2 ^ Zpos p.
Proof.
  induction p as [p IH|p IH|]; intros r H; cbn [iter_pos].
  - assert (H1 : 0 <= shr_m (shr_1 r)).
    { rewrite shr_1_m by assumption. apply Z.div_pos; lia. }
    assert (H2 : 0 <= shr_m (iter_pos shr_1 p (shr_1 r))).
    { rewrite IH by assumption. apply Z.div_pos; [lia|]. apply Z.pow_pos_nonneg; lia. }
    rewrite IH, IH, shr_1_m by assumption.
    rewrite !Z.div_div by (try apply Z.pow_pos_nonneg; lia).
    f_equal.
    replace (Z.pos p~1) with (1 + Z.pos p + Z.pos p) by lia.
    rewrite !Z.pow_add_r by lia. lia.
  - assert (H2 : 0 <= shr_m (iter_pos shr_1 p r)).
    { rewrite IH by assumption. apply Z.div_pos; [lia|]. apply Z.pow_pos_nonneg; lia. }
    rewrite IH, IH by assumption.
    rewrite !Z.div_div by (try apply Z.pow_pos_nonneg; lia).
    f_equal.
    replace (Z.pos p~0) with (Z.pos p + Z.pos p) by lia.
    rewrite !Z.pow_add_r by lia. lia.
  - rewrite shr_1_m by assumption. reflexivity.
Qed.

Lemma Zdigits2_bounds (m : Z) :
  0 < m -> 2 ^ (Zdigits2 m - 1) <= m < 2 ^ Zdigits2 m.
Proof.
  destruct m as [|p|p]; try lia. intros _. apply digits2_pos_bounds.
Qed.

Lemma shr_record_of_loc_m (m : Z) (l : location) :
  shr_m (shr_record_of_loc m l) = m.
Proof. destruct l as [|[]]; reflexivity. Qed.

Lemma round_nearest_even_ge (m : Z) (l : location) :
  m <= round_nearest_even m l.
Proof.
  destruct l as [|[]]; simpl; try lia. destruct (Z.even m); lia.
Qed.

Lemma shr_fexp_nonneg (m e : Z) (l : location) :
  0 <= m -> 0 <= shr_m (fst (shr_fexp prec emax m e l)).
Proof.
  intros H. unfold shr_fexp, shr.
  destruct (fexp prec emax (Zdigits2 m + e) - e) as [|p|p]; cbn [fst];
    try (rewrite shr_record_of_loc_m; assumption).
  rewrite iter_shr_1_m by (rewrite shr_record_of_loc_m; assumption).
  rewrite shr_record_of_loc_m.
  apply Z.div_pos; [assumption|]. apply Z.pow_pos_nonneg; lia.
Qed.

Lemma shr_fexp_pos (m e : Z) (l : location) :
  0 < m -> SpecFloat.emin prec emax <= e ->
  0 < shr_m (fst (shr_fexp prec emax m e l)) /\
  SpecFloat.emin prec emax <= snd (shr_fexp prec emax m e l).
Proof.
  intros Hm He. unfold shr_fexp, shr.
  pose proof (Zdigits2_bounds m Hm) as [B1 B2].
  destruct (fexp prec emax (Zdigits2 m + e) - e) as [|p|p] eqn:E;
    cbn [fst snd].
  - rewrite shr_record_of_loc_m. split; assumption.
  - rewrite iter_shr_1_m by (rewrite shr_record_of_loc_m; lia).
    rewrite shr_record_of_loc_m.
    unfold fexp, SpecFloat.emin, prec, emax in *.
    assert (Hp : Z.pos p <= Zdigits2 m - 1) by lia.
    split; [|lia].
    apply Z.div_str_pos. split; [apply Z.pow_pos_nonneg; lia|].
    apply Z.le_trans with (2 ^ (Zdigits2 m - 1)); auto.
    apply Z.pow_le_mono_r; lia.
  - rewrite shr_record_of_loc_m. split; assumption.
Qed.

Lemma binary_round_aux_sign (sx : bool) (mx ex : Z) (lx : location) :
  0 <= mx -> has_sign sx (binary_round_aux prec emax sx mx ex lx) = true.
Proof.
  intros H. unfold binary_round_aux.
  pose proof (shr_fexp_nonneg mx ex lx H) as H1.
  destruct (shr_fexp prec emax mx ex lx) as [mrs' e'] eqn:E1. cbn [fst] in H1.
  pose proof (round_nearest_even_ge (shr_m mrs') (loc_of_shr_record mrs')) as R.
  pose proof (shr_fexp_nonneg
                (round_nearest_even (shr_m mrs') (loc_of_shr_record mrs'))
                e' loc_Exact ltac:(lia)) as H2.
  destruct (shr_fexp prec emax _ e' loc_Exact) as [mrs'' e''] eqn:E2.
  cbn [fst] in H2.
  destruct (shr_m mrs'') as [|p|p]; try lia.
  - simpl. apply eqb_reflx.
  - destruct (e'' <=? emax - prec); simpl; apply eqb_reflx.
Qed.

Lemma binary_round_aux_nonzero (sx : bool) (mx ex : Z) (lx : location) :
  0 < mx -> SpecFloat.emin prec emax <= ex ->
  nonzero_of_sign sx (binary_round_aux prec emax sx mx ex lx) = true.
Proof.
  intros H He. unfold binary_round_aux.
  pose proof (shr_fexp_pos mx ex lx H He) as [H1 He1].
  destruct (shr_fexp prec emax mx ex lx) as [mrs' e'] eqn:E1.
  cbn [fst snd] in H1, He1.
  pose proof (round_nearest_even_ge (shr_m mrs') (loc_of_shr_record mrs')) as R.
  pose proof (shr_fexp_pos
                (round_nearest_even (shr_m mrs') (loc_of_shr_record mrs'))
                e' loc_Exact ltac:(lia) He1) as [H2 _].
  destruct (shr_fexp prec emax _ e' loc_Exact) as [mrs'' e''] eqn:E2.
  cbn [fst] in H2.
  destruct (shr_m mrs'') as [|p|p]; try lia.
  destruct (e'' <=? emax - prec); simpl; apply eqb_reflx.
Qed.

Lemma iter_xO (d m : positive) :
  Zpos (Pos.iter xO m d) = Zpos m * 2 ^ Zpos d.
Proof.
  induction d as [|d IH] using Pos.peano_ind.
  - simpl. lia.
  - rewrite Pos.iter_succ, Pos2Z.inj_xO, IH, Pos2Z.inj_succ.
    rewrite Z.pow_succ_r by lia. lia.
Qed.

(** [shl_align] keeps the value: the mantissa is scaled by the power of two
    the exponent loses. *)
Lemma shl_align_spec (m : positive) (e e' : Z) :
  let r := shl_align m e e' in
  snd r = Z.min e e' /\ Zpos (fst r) = Zpos m * 2 ^ (e - Z.min e e').
Proof.
  unfold shl_align. destruct (e' - e) as [|d|d] eqn:E; cbn [fst snd].
  - rewrite Z.min_l by lia. rewrite Z.sub_diag. simpl. lia.
  - rewrite Z.min_l by lia. rewrite Z.sub_diag. simpl. lia.
  - rewrite Z.min_r by lia. split; [reflexivity|].
    rewrite iter_xO. f_equal. f_equal. lia.
Qed.

Lemma binary_round_nonzero (sx : bool) (mx : positive) (ex : Z) :
  SpecFloat.emin prec emax <= ex ->
  nonzero_of_sign sx (binary_round prec emax sx mx ex) = true.
Proof.
  intros He. unfold binary_round.
  pose proof (shl_align_spec mx ex
                (fexp prec emax (Z.pos (digits2_pos mx) + ex))) as [S1 S2].
  destruct (shl_align mx ex _) as [mz ez]. cbn [fst snd] in S1, S2.
  apply binary_round_aux_nonzero; [lia|].
  rewrite S1. unfold fexp, SpecFloat.emin, prec, emax in *. lia.
Qed.

Lemma valid_finite (s : bool) (m : positive) (e : Z) :
  valid_binary (S754_finite s m e) = true ->
  SpecFloat.emin prec emax <= e /\
  Zpos m < 2 ^ 53 /\
  (SpecFloat.emin prec emax < e -> 2 ^ 52 <= Zpos m).
Proof.
  unfold SpecFloat.valid_binary, bounded, canonical_mantissa.
  intros H. apply andb_true_iff in H. destruct H as [H _].
  apply Z.eqb_eq in H.
  pose proof (digits2_pos_bounds m) as [B1 B2].
  unfold fexp, SpecFloat.emin, prec, emax in *.
  assert (D : Z.pos (digits2_pos m) <= 53) by lia.
  repeat split.
  - lia.
  - apply Z.lt_le_trans with (2 ^ Z.pos (digits2_pos m)); auto.
    apply Z.pow_le_mono_r; lia.
  - intros He. assert (D' : Z.pos (digits2_pos m) = 53) by lia.
    rewrite D' in B1. exact B1.
Qed.

(** Of two valid magnitudes, the one with the smaller (exponent, mantissa)
    is the smaller number once both are brought to the same exponent. *)
Lemma aligned_lt (mx my : positive) (ex ey : Z) :
  valid_binary (S754_finite false mx ex) = true ->
  valid_binary (S754_finite false my ey) = true ->
  ex < ey \/ (ex = ey /\ Zpos mx < Zpos my) ->
  Zpos mx * 2 ^ (ex - Z.min ex ey) < Zpos my * 2 ^ (ey - Z.min ex ey).
Proof.
  intros Vx Vy H.
  apply valid_finite in Vx. destruct Vx as (Ex & Mx & _).
  apply valid_finite in Vy. destruct Vy as (Ey & _ & My).
  destruct H as [H|[-> H]].
  - rewrite Z.min_l by lia. rewrite Z.sub_diag, Z.pow_0_r, Z.mul_1_r.
    specialize (My ltac:(lia)).
    assert (P : 2 ^ 1 <= 2 ^ (ey - ex)) by (apply Z.pow_le_mono_r; lia).
    change (2 ^ 1) with 2 in P.
    change (2 ^ 53) with (2 ^ 52 * 2) in Mx.
    nia.
  - rewrite Z.min_id, Z.sub_diag, Z.pow_0_r. lia.
Qed.

Lemma SFsub_finite (sx sy : bool) (mx my : positive) (ex ey : Z) :
  SFsub prec emax (S754_finite sx mx ex) (S754_finite sy my ey) =
  binary_normalize prec emax
    (cond_Zopp sx (Zpos mx * 2 ^ (ex - Z.min ex ey)) -
     cond_Zopp sy (Zpos my * 2 ^ (ey - Z.min ex ey)))
    (Z.min ex ey) false.
Proof.
  cbn [SFsub].
  pose proof (shl_align_spec mx ex (Z.min ex ey)) as [_ S1].
  pose proof (shl_align_spec my ey (Z.min ex ey)) as [_ S2].
  rewrite S1, S2.
  rewrite (Z.min_r ex (Z.min ex ey)) by lia.
  rewrite (Z.min_r ey (Z.min ex ey)) by lia.
  reflexivity.
Qed.

Lemma binary_normalize_nonzero (m e : Z) (sz : bool) :
  SpecFloat.emin prec emax <= e -> m <> 0 ->
  nonzero_of_sign (m <? 0) (binary_normalize prec emax m e sz) = true.
Proof.
  intros He Hm. destruct m as [|p|p]; try congruence; cbn [binary_normalize].
  - apply (binary_round_nonzero false); assumption.
  - apply (binary_round_nonzero true); assumption.
Qed.

(** The difference of the aligned signed mantissas has the sign the
    comparison announces. *)
Lemma SFcompare_finite_diff (sx sy : bool) (mx my : positive) (ex ey : Z) :
  valid_binary (S754_finite sx mx ex) = true ->
  valid_binary (S754_finite sy my ey) = true ->
  let z := cond_Zopp sx (Zpos mx * 2 ^ (ex - Z.min ex ey)) -
           cond_Zopp sy (Zpos my * 2 ^ (ey - Z.min ex ey)) in
  match SFcompare (S754_finite sx mx ex) (S754_finite sy my ey) with
  | Some Lt => z < 0
  | Some Gt => 0 < z
  | Some Eq => z = 0
  | None => False
  end.
Proof.
  intros Vx Vy.
  set (ax := Zpos mx * 2 ^ (ex - Z.min ex ey)).
  set (ay := Zpos my * 2 ^ (ey - Z.min ex ey)).
  assert (Px : 0 < ax)
    by (apply Z.mul_pos_pos; [lia|apply Z.pow_pos_nonneg; lia]).
  assert (Py : 0 < ay)
    by (apply Z.mul_pos_pos; [lia|apply Z.pow_pos_nonneg; lia]).
  assert (Lxy : ex < ey \/ (ex = ey /\ Zpos mx < Zpos my) -> ax < ay).
  { intros H. apply aligned_lt; auto. }
  assert (Lyx : ey < ex \/ (ey = ex /\ Zpos my < Zpos mx) -> ay < ax).
  { intros H. unfold ax, ay. rewrite (Z.min_comm ex ey).
    apply aligned_lt; auto. }
  assert (Exy : ex = ey -> mx = my -> ax = ay).
  { intros -> ->. reflexivity. }
  cbn [SFcompare].
  change (Pos.compare_cont Eq mx my) with (Pos.compare mx my).
  destruct sx, sy; cbn [cond_Zopp]; try lia;
    destruct (Z.compare_spec ex ey); try lia;
    destruct (Pos.compare_spec mx my); cbn [CompOpp]; try lia;
    try (specialize (Exy ltac:(assumption) ltac:(assumption)); lia).
Qed.

(** The sign of a difference is the outcome of the comparison. *)
Lemma SFsub_sign (x y : spec_float) (c : comparison) :
  valid_binary x = true -> valid_binary y = true ->
  SFcompare x y = Some c ->
  match c with
  | Lt => nonzero_of_sign true (SFsub prec emax x y) = true
  | Gt => nonzero_of_sign false (SFsub prec emax x y) = true
  | Eq => True
  end.
Proof.
  destruct x as [sx|sx| |sx mx ex], y as [sy|sy| |sy my ey];
    intros Vx Vy C; try discriminate C;
    try (destruct sx; injection C as <-; exact eq_refl || exact I);
    try (destruct sy; injection C as <-; exact eq_refl || exact I);
    try (destruct sx, sy; injection C as <-; exact eq_refl || exact I).
  rewrite SFsub_finite.
  pose proof (valid_finite _ _ _ Vx) as (Ex & _).
  pose proof (valid_finite _ _ _ Vy) as (Ey & _).
  pose proof (SFcompare_finite_diff sx sy mx my ex ey Vx Vy) as D.
  cbv zeta in D. rewrite C in D.
  set (z := cond_Zopp sx (Zpos mx * 2 ^ (ex - Z.min ex ey)) -
            cond_Zopp sy (Zpos my * 2 ^ (ey - Z.min ex ey))) in *.
  assert (B : z <> 0 ->
              nonzero_of_sign (z <? 0)
                (binary_normalize prec emax z (Z.min ex ey) false) = true)
    by (intros Hz; apply binary_normalize_nonzero; lia).
  destruct c; auto.
  - replace (z <? 0) with true in B by (symmetry; apply Z.ltb_lt; lia).
    apply B. lia.
  - replace (z <? 0) with false in B by (symmetry; apply Z.ltb_ge; lia).
    apply B. lia.
Qed.

(** A finite number minus itself is +0. *)
Lemma SFsub_diag (x : spec_float) :
  match x with S754_zero _ | S754_finite _ _ _ => True | _ => False end ->
  SFsub prec emax x x = S754_zero false.
Proof.
  destruct x as [s|s| |s m e]; intros H; try contradiction.
  - destruct s; reflexivity.
  - rewrite SFsub_finite. rewrite Z.sub_diag. reflexivity.
Qed.

(** From the specification to primitive floats. *)

Lemma sub_sign (x y : float) (c : comparison) :
  SFcompare (Prim2SF x) (Prim2SF y) = Some c ->
  match c with
  | Lt => nonzero_of_sign true (Prim2SF (x - y)) = true
  | Gt => nonzero_of_sign false (Prim2SF (x - y)) = true
  | Eq => True
  end.
Proof.
  rewrite sub_spec. apply SFsub_sign; apply Prim2SF_valid.
Qed.

(** [x < y] makes [x - y] a negative number or minus infinity, never a
    zero. *)
Lemma sub_negative (x y : float) :
  (x <? y)%float = true -> nonzero_of_sign true (Prim2SF (x - y)) = true.
Proof.
  rewrite ltb_spec. unfold SFltb.
  destruct (SFcompare (Prim2SF x) (Prim2SF y)) as [[]|] eqn:C;
    try discriminate.
  intros _. apply (sub_sign x y Lt C).
Qed.

Lemma sub_positive (x y : float) :
  (y <? x)%float = true -> nonzero_of_sign false (Prim2SF (x - y)) = true.
Proof.
  rewrite ltb_spec. unfold SFltb.
  rewrite (SFcompare_swap (Prim2SF x) (Prim2SF y)).
  destruct (SFcompare (Prim2SF x) (Prim2SF y)) as [[]|] eqn:C;
    try discriminate.
  intros _. apply (sub_sign x y Gt C).
Qed.

Lemma is_finite_spec (x : float) :
  is_finite x = true ->
  match Prim2SF x with
  | S754_zero _ | S754_finite _ _ _ => True
  | _ => False
  end.
Proof.
  unfold is_finite, is_infinity. rewrite is_nan_spec, eqb_spec, abs_spec.
  change (Prim2SF infinity) with (S754_infinity false).
  destruct (Prim2SF x) as [s|s| |s m e]; simpl; auto; discriminate.
Qed.

Lemma sub_diag_finite (x : float) :
  is_finite x = true -> (x - x)%float = zero.
Proof.
  intros H. apply Prim2SF_inj. rewrite sub_spec.
  apply SFsub_diag. apply is_finite_spec. assumption.
Qed.

(** [1 / d] for a positive [d] is +0, a positive number or +infinity. *)
Lemma SFdiv_one_positive (d : spec_float) :
  nonzero_of_sign false d = true ->
  has_sign false (SFdiv prec emax (Prim2SF 1) d) = true.
Proof.
  change (Prim2SF 1) with (S754_finite false 4503599627370496 (-52)).
  destruct d as [s|s| |s m e]; try discriminate; intros H;
    destruct s; try discriminate H; [reflexivity|].
  cbn [SFdiv xorb]. unfold SFdiv_core_binary.
  set (e' := Z.min _ _). set (m' := match _ - _ - e' with
                                    | Z0 => _ | Zpos _ => _ | Zneg _ => _ end).
  assert (Hm : 0 <= m').
  { unfold m'. destruct (- 52 - e - e'); try lia.
    apply Z.shiftl_nonneg. lia. }
  pose proof (Z.div_pos m' (Z.pos m) Hm ltac:(lia)) as Q.
  unfold Z.div in Q. destruct (Z.div_eucl m' (Z.pos m)) as [q r].
  apply binary_round_aux_sign. assumption.
Qed.

Lemma div_one_positive (d : float) :
  nonzero_of_sign false (Prim2SF d) = true ->
  has_sign false (Prim2SF (1 / d)) = true.
Proof. rewrite div_spec. apply SFdiv_one_positive. Qed.

(** A negative factor times a non-negative one: the product is negative,
    or [-0], or NaN for [-infinity * 0]. *)
Lemma SFmul_negative_nonneg (x y : spec_float) :
  nonzero_of_sign true x = true -> has_sign false y = true ->
  has_sign true (SFmul prec emax x y) = true \/
  (x = S754_infinity true /\ y = S754_zero false /\
   SFmul prec emax x y = S754_nan).
Proof.
  destruct x as [sx|sx| |sx mx ex]; try discriminate;
    destruct y as [sy|sy| |sy my ey]; try discriminate;
    intros Hx Hy; destruct sx; try discriminate Hx;
    destruct sy; try discriminate Hy; auto.
  left. cbn [SFmul xorb]. apply binary_round_aux_sign. lia.
Qed.

Lemma SFmul_infinity (x : spec_float) :
  SFmul prec emax x (S754_infinity false) =
  match x with
  | S754_finite s _ _ | S754_infinity s => S754_infinity s
  | _ => S754_nan
  end.
Proof. destruct x as [s|s| |s m e]; try destruct s; reflexivity. Qed.

(** [Clamp(t, 0, 1)] by the class of [t]. *)
Lemma Clamp_negative (t : float) :
  nonzero_of_sign true (Prim2SF t) = true -> Clamp t 0 1 = 0%float.
Proof.
  intros H. unfold Clamp. rewrite !ltb_spec.
  change (Prim2SF 0) with (S754_zero false).
  change (Prim2SF 1) with (S754_finite false 4503599627370496 (-52)).
  destruct (Prim2SF t) as [s|s| |s m e]; try discriminate;
    destruct s; try discriminate H; reflexivity.
Qed.

Lemma Clamp_signed_nonpositive (t : float) :
  has_sign true (Prim2SF t) = true ->
  Clamp t 0 1 = 0%float \/ Clamp t 0 1 = neg_zero.
Proof.
  intros H. destruct (Prim2SF t) as [s|s| |s m e] eqn:E; try discriminate;
    destruct s; try discriminate H.
  - right. assert (t = neg_zero) as -> by (apply Prim2SF_inj; exact E).
    reflexivity.
  - left. apply Clamp_negative. rewrite E. reflexivity.
  - left. apply Clamp_negative. rewrite E. reflexivity.
Qed.

End FloatArith.

(** ** The loops over a grid

    Two nested [for] loops over [y] and [x] touch the buffer at
    [y * width + x]: on a grid that is [Grid_ok] they visit every cell
    once, in buffer order. *)

Module Loops.

Lemma int32_of_size_small (n : nat) :
  (Z.of_nat n <= INT32_MAX)%Z -> Z.to_nat (int32_of_size n) = n.
Proof.
  unfold INT32_MAX, int32_of_size. intros H.
  rewrite Z.mod_small by lia.
  destruct (Z.ltb_spec (Z.of_nat n) 2147483648); [|lia].
  apply Nat2Z.id.
Qed.

Section Nest.
Context {S : Type}.
Variable F : nat -> nat -> S -> S.
Variable w : nat.

Lemma row_flat (y : nat) :
  forall n a s, (a + n <= w)%nat ->
  fold_left (fun acc x => F y x acc) (seq a n) s =
  fold_left (fun acc k => F (k / w) (k mod w) acc) (seq (y * w + a) n) s.
Proof.
  induction n as [|n IH]; intros a s Ha; [reflexivity|].
  simpl.
  assert (Hw : (a < w)%nat) by lia.
  rewrite (Nat.div_add_l y w a) by lia.
  rewrite (Nat.div_small a w Hw), Nat.add_0_r.
  rewrite (Nat.add_comm (y * w) a), Nat.Div0.mod_add.
  rewrite (Nat.mod_small a w Hw).
  rewrite (IH (Datatypes.S a)) by lia.
  rewrite (Nat.add_comm a (y * w)), Nat.add_succ_r. reflexivity.
Qed.

Lemma nest_flat (h : nat) (s : S) :
  fold_left (fun acc y => fold_left (fun acc x => F y x acc) (seq 0 w) acc)
            (seq 0 h) s =
  fold_left (fun acc k => F (k / w) (k mod w) acc) (seq 0 (h * w)) s.
Proof.
  induction h as [|h IH]; [reflexivity|].
  replace (Datatypes.S h * w)%nat with (h * w + w)%nat by lia.
  rewrite seq_S, seq_app, !fold_left_app, IH.
  cbn [fold_left Nat.add].
  rewrite (row_flat h w 0) by lia.
  rewrite Nat.add_0_r. reflexivity.
Qed.

End Nest.

Lemma fold_seq_nth {S T : Type} (f : S -> T -> S) (d : T) :
  forall (l pre : list T) (s : S),
  fold_left (fun acc k => f acc (nth k (pre ++ l) d))
            (seq (length pre) (length l)) s =
  fold_left f l s.
Proof.
  induction l as [|a l IH]; intros pre s; [reflexivity|].
  simpl. rewrite nth_middle.
  specialize (IH (pre ++ [a]) (f s a)).
  rewrite <- app_assoc in IH. simpl in IH.
  rewrite length_app in IH. simpl in IH.
  rewrite Nat.add_1_r in IH. exact IH.
Qed.

Lemma fold_left_ext {S T : Type} (f g : S -> T -> S) :
  (forall s k, f s k = g s k) ->
  forall l s, fold_left f l s = fold_left g l s.
Proof.
  intros H. induction l as [|a l IH]; intros s; simpl; [reflexivity|].
  rewrite H. apply IH.
Qed.

Lemma index_row_col (k w : nat) : (k / w * w + k mod w)%nat = k.
Proof.
  rewrite (Nat.mul_comm (k / w) w). symmetry. apply Nat.div_mod_eq.
Qed.

(** The loops of [GetMinMax] scan the buffer from its first cell to its
    last. *)
Lemma scan_cells (data : Grid float) :
  Grid_ok data ->
  GetMinMax_loops data = fold_left GetMinMax_body (m_data data) GetMinMax_init.
Proof.
  intros (Hlen & Hw & Hh).
  unfold GetMinMax_loops, for_int32.
  rewrite !int32_of_size_small by assumption.
  rewrite (nest_flat
             (fun y x s => GetMinMax_body s (Grid_at data nan y x))).
  unfold Grid_at. rewrite <- Hlen.
  rewrite <- (fold_seq_nth GetMinMax_body nan (m_data data) [] GetMinMax_init).
  simpl. apply fold_left_ext. intros s k.
  rewrite index_row_col. reflexivity.
Qed.

Lemma list_set_middle {T} (pre post : list T) (a c : T) :
  list_set (pre ++ a :: post) (length pre) c = pre ++ c :: post.
Proof.
  induction pre as [|b pre IH]; simpl; [reflexivity|].
  rewrite IH. reflexivity.
Qed.

Lemma fold_seq_set {T C : Type} (f : T -> C) (d : T) (blank : C) :
  forall (l pre : list T) (done : list C),
  length done = length pre ->
  fold_left (fun img k => list_set img k (f (nth k (pre ++ l) d)))
            (seq (length pre) (length l))
            (done ++ repeat blank (length l)) =
  done ++ map f l.
Proof.
  induction l as [|a l IH]; intros pre done Hd; [reflexivity|].
  simpl. rewrite nth_middle. rewrite <- Hd at 2.
  rewrite list_set_middle.
  specialize (IH (pre ++ [a]) (done ++ [f a])).
  rewrite <- !app_assoc in IH. simpl in IH.
  rewrite !length_app in IH. simpl in IH.
  rewrite !Nat.add_1_r in IH. apply IH. lia.
Qed.

Lemma fold_Grid_set {C : Type} (c : nat -> C) (w h : nat) :
  forall (ks : list nat) (l : list C),
  fold_left (fun img k => Grid_set img (k / w) (k mod w) (c k)) ks
            (mkGrid l w h) =
  mkGrid (fold_left (fun l k => list_set l k (c k)) ks l) w h.
Proof.
  induction ks as [|k ks IH]; intros l; [reflexivity|].
  simpl. unfold Grid_set at 2. simpl.
  rewrite index_row_col. apply IH.
Qed.

Section Pixels.
Variable Color : Type.
Variable ColormapType : Type.
Variable Colormap01F : float -> ColormapType -> Color.
Variable blank : Color.

(** Every pixel of the image is written once, with the colour of the
    normalized value of the cell at the same place; nothing of the fresh
    image is left. *)
Lemma CreateColormapImage_pixels (data : Grid float) (vmin vmax : float)
    (cmapType : ColormapType) :
  Grid_ok data ->
  CreateColormapImage Color ColormapType Colormap01F blank
                      data vmin vmax cmapType =
  mkGrid (map (fun v => Colormap01F (normalized vmin vmax v) cmapType)
              (m_data data))
         (m_width data) (m_height data).
Proof.
  intros (Hlen & Hw & Hh).
  unfold CreateColormapImage, for_int32, Image_new.
  rewrite !int32_of_size_small by assumption.
  rewrite (nest_flat (fun y x img =>
    Grid_set img y x
      (Colormap01F
         (Clamp ((Grid_at data nan y x - vmin) * (1 / (vmax - vmin))) 0 1)
         cmapType))).
  rewrite (fold_left_ext _
    (fun img k => Grid_set img (k / m_width data) (k mod m_width data)
       ((fun k => Colormap01F (normalized vmin vmax (nth k (m_data data) nan))
                    cmapType) k))).
  2:{ intros img k. unfold Grid_at. rewrite index_row_col. reflexivity. }
  rewrite fold_Grid_set. f_equal.
  rewrite <- Hlen.
  apply (fold_seq_set
           (fun v => Colormap01F (normalized vmin vmax v) cmapType)
           nan blank (m_data data) [] []).
  reflexivity.
Qed.

End Pixels.

End Loops.

(** ** What the scan of [GetMinMax] maintains *)

Module MinMax.
Import FloatFacts.

Lemma Inv_init : Inv [] GetMinMax_init.
Proof.
  constructor; simpl; try discriminate; try contradiction; auto.
Qed.

Lemma Inv_step (cells : list float) (s : MinMaxState) (v : float) :
  Inv cells s -> Inv (cells ++ [v]) (GetMinMax_body s v).
Proof.
  intros I. unfold GetMinMax_body.
  destruct (100 <=? v) eqn:Hv; cbn [mn mx hasMin].
  - (* v >= 100 *)
    destruct (leb_not_nan _ _ Hv) as [_ Nv].
    constructor; cbn [mn mx hasMin]; try discriminate.
    + intros _. apply in_or_app.
      destruct (hasMin s) eqn:Hs; simpl.
      * destruct (v <? mn s); [right; simpl; auto|].
        left. apply (inv_mn_in _ _ I Hs).
      * right; simpl; auto.
    + intros _. destruct (hasMin s) eqn:Hs; simpl; auto.
      destruct (v <? mn s); auto. apply (inv_mn_valid _ _ I Hs).
    + intros _ u Hu Hu100.
      apply in_app_or in Hu. destruct Hu as [Hu|[<-|[]]].
      * destruct (hasMin s) eqn:Hs; simpl.
        -- pose proof (inv_mn_least _ _ I Hs u Hu Hu100) as L.
           destruct (v <? mn s) eqn:Hlt; auto.
           destruct (u <? v) eqn:Huv; auto.
           rewrite (ltb_trans _ _ _ Huv Hlt) in L. discriminate.
        -- rewrite (inv_none _ _ I Hs u Hu) in Hu100. discriminate.
      * destruct (negb (hasMin s) || (v <? mn s)) eqn:C.
        -- apply ltb_irrefl.
        -- apply orb_false_iff in C. apply C.
    + destruct (mx s <? v); auto. apply (inv_mx_num _ _ I).
    + destruct (mx s <? v).
      * right. apply in_or_app. right; simpl; auto.
      * destruct (inv_mx_in _ _ I) as [E|E]; auto.
        right. apply in_or_app. auto.
    + intros u Hu. apply in_app_or in Hu. destruct Hu as [Hu|[<-|[]]].
      * pose proof (inv_mx_top _ _ I u Hu) as T.
        destruct (mx s <? v) eqn:Hlt; auto.
        destruct (v <? u) eqn:Hvu; auto.
        rewrite (ltb_trans _ _ _ Hlt Hvu) in T. discriminate.
      * destruct (mx s <? v) eqn:Hlt; auto. apply ltb_irrefl.
  - (* v < 100, or v is not a number *)
    constructor; cbn [mn mx hasMin].
    + intros Hs u Hu. apply in_app_or in Hu. destruct Hu as [Hu|[<-|[]]]; auto.
      apply (inv_none _ _ I Hs u Hu).
    + intros Hs. apply in_or_app. left. apply (inv_mn_in _ _ I Hs).
    + apply (inv_mn_valid _ _ I).
    + intros Hs u Hu Hu100. apply in_app_or in Hu.
      destruct Hu as [Hu|[<-|[]]].
      * apply (inv_mn_least _ _ I Hs u Hu Hu100).
      * congruence.
    + destruct (mx s <? v) eqn:Hlt.
      * apply (ltb_not_nan _ _ Hlt).
      * apply (inv_mx_num _ _ I).
    + destruct (mx s <? v).
      * right. apply in_or_app. right; simpl; auto.
      * destruct (inv_mx_in _ _ I) as [E|E]; auto.
        right. apply in_or_app. auto.
    + intros u Hu. apply in_app_or in Hu. destruct Hu as [Hu|[<-|[]]].
      * pose proof (inv_mx_top _ _ I u Hu) as T.
        destruct (mx s <? v) eqn:Hlt; auto.
        destruct (v <? u) eqn:Hvu; auto.
        rewrite (ltb_trans _ _ _ Hlt Hvu) in T. discriminate.
      * destruct (mx s <? v) eqn:Hlt; auto. apply ltb_irrefl.
Qed.

Lemma Inv_scan (cells : list float) : Inv cells (scan cells).
Proof.
  unfold scan. induction cells as [|v cells IH] using rev_ind.
  - apply Inv_init.
  - rewrite fold_left_app. simpl. apply Inv_step. assumption.
Qed.

Lemma GetMinMax_scan (data : Grid float) :
  Grid_ok data ->
  GetMinMax data =
  ((if negb (hasMin (scan (m_data data))) then 100
    else mn (scan (m_data data))),
   mx (scan (m_data data))).
Proof.
  intros H. unfold GetMinMax. rewrite (Loops.scan_cells data H). reflexivity.
Qed.

(** Some cell is [>= 100] exactly when the scan ends with [hasMin]. *)
Lemma hasMin_iff (cells : list float) :
  hasMin (scan cells) = true <->
  exists v, In v cells /\ (100 <=? v) = true.
Proof.
  pose proof (Inv_scan cells) as I. split.
  - intros H. exists (mn (scan cells)). split.
    + apply (inv_mn_in _ _ I H).
    + apply (inv_mn_valid _ _ I H).
  - intros (v & Hv & H100). destruct (hasMin (scan cells)) eqn:E; auto.
    rewrite (inv_none _ _ I E v Hv) in H100. discriminate.
Qed.

(** Without a cell [>= 100] the scan ends with [hasMin] unset. *)
Lemma no_valid_cell (cells : list float) :
  (forall v, In v cells -> (v <? 100) = true) ->
  hasMin (scan cells) = false.
Proof.
  intros Hall. destruct (hasMin (scan cells)) eqn:Hs; auto.
  apply hasMin_iff in Hs. destruct Hs as (v & Hv & H100).
  specialize (Hall v Hv).
  rewrite (leb_not_ltb _ _ H100) in Hall. discriminate.
Qed.

Lemma scan_min (cells : list float) :
  hasMin (scan cells) = true -> min_over_valid cells (mn (scan cells)).
Proof.
  pose proof (Inv_scan cells) as I. intros H.
  pose proof (inv_mn_valid _ _ I H) as V.
  repeat split.
  - apply (inv_mn_in _ _ I H).
  - assumption.
  - intros v Hv H100. apply not_ltb_leb.
    + apply (leb_not_nan _ _ V).
    + apply (leb_not_nan _ _ H100).
    + apply (inv_mn_least _ _ I H v Hv H100).
Qed.

(** As soon as one cell is a number, [mx] is the greatest cell. *)
Lemma scan_max (cells : list float) :
  (exists v, In v cells /\ is_nan v = false) ->
  max_over cells (mx (scan cells)).
Proof.
  pose proof (Inv_scan cells) as I. intros (v & Hv & Nv).
  assert (T : forall u, In u cells -> is_nan u = false ->
                        (u <=? mx (scan cells)) = true).
  { intros u Hu Nu. apply not_ltb_leb; auto.
    - apply (inv_mx_num _ _ I).
    - apply (inv_mx_top _ _ I u Hu). }
  split; auto.
  destruct (inv_mx_in _ _ I) as [E|E]; auto.
  pose proof (T v Hv Nv) as L. rewrite E in L.
  assert (v = neg_infinity) as ->.
  { destruct (incomparable_eq v neg_infinity Nv eq_refl) as [H|[_ H]]; auto.
    - apply ltb_neg_infinity.
    - apply leb_not_ltb. assumption.
    - vm_compute in H. discriminate. }
  rewrite E. assumption.
Qed.

Lemma min_over_valid_unique (cells cells' : list float) (a b : float) :
  Permutation cells cells' ->
  min_over_valid cells a -> min_over_valid cells' b -> a = b.
Proof.
  intros P (Ia & Va & La) (Ib & Vb & Lb).
  pose proof (La b (Permutation_in _ (Permutation_sym P) Ib) Vb) as Hab.
  pose proof (Lb a (Permutation_in _ P Ia) Va) as Hba.
  destruct (incomparable_eq a b) as [H|[H _]]; auto.
  - apply (leb_not_nan _ _ Va).
  - apply (leb_not_nan _ _ Vb).
  - apply leb_not_ltb. assumption.
  - apply leb_not_ltb. assumption.
  - rewrite (leb_100_not_zero _ Va) in H. discriminate.
Qed.

Lemma max_over_unique (cells cells' : list float) (a b : float) :
  Permutation cells cells' ->
  (100 <=? a) = true ->
  max_over cells a -> max_over cells' b -> a = b.
Proof.
  intros P Va (Ia & La) (Ib & Lb).
  destruct (leb_not_nan _ _ Va) as [_ Na].
  pose proof (Lb a (Permutation_in _ P Ia) Na) as Hab.
  destruct (leb_not_nan _ _ Hab) as [_ Nb].
  pose proof (La b (Permutation_in _ (Permutation_sym P) Ib) Nb) as Hba.
  destruct (incomparable_eq a b) as [H|[H _]]; auto.
  - apply leb_not_ltb. assumption.
  - apply leb_not_ltb. assumption.
  - rewrite (leb_100_not_zero _ Va) in H. discriminate.
Qed.

End MinMax.

(** ** Properties of [GetMinMax] and [GetBounds] *)

Import FloatFacts.

Lemma for_int32_skip {S : Type} (n : Z) (s : S) :
  for_int32 n (fun _ acc => acc) s = s.
Proof.
  unfold for_int32. induction (seq 0 (Z.to_nat n)) as [|a l IH]; auto.
Qed.

Lemma GetMinMax_loops_empty (data : Grid float) :
  m_width data = 0%nat \/ m_height data = 0%nat ->
  GetMinMax_loops data = GetMinMax_init.
Proof.
  unfold GetMinMax_loops. intros [H|H]; rewrite H.
  - change (int32_of_size 0) with 0%Z.
    change (for_int32 (int32_of_size (m_height data))
              (fun _ s => s) GetMinMax_init = GetMinMax_init).
    apply for_int32_skip.
  - reflexivity.
Qed.

(** C1. On a grid with at least one cell [>= 100], [GetMinMax] returns as
    low the least of the cells that are [>= 100] and as high the greatest
    of all cells; a grid holding the same cells in another order gives
    the same pair. *)
Theorem GetMinMax_filtered_min_unfiltered_max (data data' : Grid float) :
  Grid_ok data -> Grid_ok data' ->
  (exists v, In v (m_data data) /\ (100 <=? v) = true) ->
  Permutation (m_data data) (m_data data') ->
  min_over_valid (m_data data) (fst (GetMinMax data)) /\
  max_over (m_data data) (snd (GetMinMax data)) /\
  GetMinMax data' = GetMinMax data.
Proof.
  intros Hok Hok' (v & Hv & H100) P.
  rewrite (MinMax.GetMinMax_scan data Hok), (MinMax.GetMinMax_scan data' Hok').
  assert (Hs : hasMin (scan (m_data data)) = true).
  { apply MinMax.hasMin_iff. eauto. }
  assert (Hs' : hasMin (scan (m_data data')) = true).
  { apply MinMax.hasMin_iff. exists v. split; auto.
    apply (Permutation_in _ P Hv). }
  rewrite Hs, Hs'. cbn [negb fst snd].
  destruct (leb_not_nan _ _ H100) as [_ Nv].
  pose proof (MinMax.scan_min _ Hs) as Lo.
  pose proof (MinMax.scan_min _ Hs') as Lo'.
  assert (Hi : max_over (m_data data)
                 (mx (scan (m_data data)))).
  { apply MinMax.scan_max. eauto. }
  assert (Hi' : max_over (m_data data')
                  (mx (scan (m_data data')))).
  { apply MinMax.scan_max. exists v. split; auto.
    apply (Permutation_in _ P Hv). }
  repeat split; try apply Lo; try apply Hi.
  f_equal.
  - symmetry. apply (MinMax.min_over_valid_unique _ _ _ _ P Lo Lo').
  - symmetry. apply (MinMax.max_over_unique _ _ _ _ P); auto.
    apply (leb_trans _ v _ H100). apply Hi; assumption.
Qed.

Lemma GetMinMax_filtered_min_unfiltered_max_witness :
  min_over_valid (m_data scenario_grid) (fst (GetMinMax scenario_grid)) /\
  max_over (m_data scenario_grid) (snd (GetMinMax scenario_grid)) /\
  GetMinMax scenario_grid_rev = GetMinMax scenario_grid.
Proof.
  apply (GetMinMax_filtered_min_unfiltered_max scenario_grid scenario_grid_rev).
  - repeat split; vm_compute; discriminate.
  - repeat split; vm_compute; discriminate.
  - exists 150. split; [simpl; auto | reflexivity].
  - apply (Permutation_rev [50; 150; 300; 100]).
Defined.

(** C7. When every cell is strictly below 100, [GetMinMax] returns the
    constant 100 as low. *)
Theorem GetMinMax_fallback (data : Grid float) :
  Grid_ok data ->
  (forall v, In v (m_data data) -> (v <? 100) = true) ->
  fst (GetMinMax data) = 100.
Proof.
  intros Hok Hall. rewrite (MinMax.GetMinMax_scan data Hok). cbn [fst].
  rewrite (MinMax.no_valid_cell _ Hall). reflexivity.
Qed.

Lemma GetMinMax_fallback_witness : fst (GetMinMax low_grid) = 100.
Proof.
  apply (GetMinMax_fallback low_grid).
  - repeat split; vm_compute; discriminate.
  - intros v [<-|[<-|[<-|[<-|[]]]]]; reflexivity.
Defined.

(** C9. The low returned by [GetMinMax] is at least 100 on every grid,
    empty or not. *)
Theorem GetMinMax_low_ge_100 (data : Grid float) :
  Grid_ok data -> (100 <=? fst (GetMinMax data)) = true.
Proof.
  intros Hok. rewrite (MinMax.GetMinMax_scan data Hok). cbn [fst].
  destruct (hasMin (scan (m_data data))) eqn:Hs; simpl.
  - apply (inv_mn_valid _ _ (MinMax.Inv_scan _) Hs).
  - reflexivity.
Qed.

Lemma GetMinMax_low_ge_100_witness :
  (100 <=? fst (GetMinMax scenario_grid)) = true.
Proof.
  apply (GetMinMax_low_ge_100 scenario_grid).
  repeat split; vm_compute; discriminate.
Defined.

(** C10. On a non-empty grid whose cells are all strictly below 100, the
    high returned by [GetMinMax] is still the greatest cell, the low is
    100, and so high < low: the pair is not ordered. *)
Theorem GetMinMax_high_below_low (data : Grid float) :
  Grid_ok data ->
  m_data data <> [] ->
  (forall v, In v (m_data data) -> (v <? 100) = true) ->
  max_over (m_data data) (snd (GetMinMax data)) /\
  fst (GetMinMax data) = 100 /\
  (snd (GetMinMax data) <? fst (GetMinMax data)) = true /\
  (fst (GetMinMax data) <=? snd (GetMinMax data)) = false.
Proof.
  intros Hok Hne Hall.
  assert (Lo : fst (GetMinMax data) = 100).
  { rewrite (MinMax.GetMinMax_scan data Hok). cbn [fst].
    rewrite (MinMax.no_valid_cell _ Hall). reflexivity. }
  assert (Hi : max_over (m_data data) (snd (GetMinMax data))).
  { rewrite (MinMax.GetMinMax_scan data Hok). cbn [snd].
    apply MinMax.scan_max.
    destruct (m_data data) as [|v l] eqn:E; [congruence|].
    exists v. split; [simpl; auto|].
    apply (ltb_not_nan v 100). apply Hall. simpl; auto. }
  assert (Hlt : (snd (GetMinMax data) <? 100) = true).
  { apply Hall. apply Hi. }
  rewrite Lo. repeat split; auto; try apply Hi.
  destruct (100 <=? snd (GetMinMax data)) eqn:C; auto.
  rewrite (leb_not_ltb _ _ C) in Hlt. discriminate.
Qed.

Lemma GetMinMax_high_below_low_witness :
  max_over (m_data low_grid) (snd (GetMinMax low_grid)) /\
  fst (GetMinMax low_grid) = 100 /\
  (snd (GetMinMax low_grid) <? fst (GetMinMax low_grid)) = true /\
  (fst (GetMinMax low_grid) <=? snd (GetMinMax low_grid)) = false.
Proof.
  apply (GetMinMax_high_below_low low_grid).
  - repeat split; vm_compute; discriminate.
  - discriminate.
  - intros v [<-|[<-|[<-|[<-|[]]]]]; reflexivity.
Defined.

(** C4, as the code has it. [GetMinMax] has no failure path: on a grid
    without cells no iteration runs and the call returns the fallback low
    100 with the initial high, minus infinity. *)
Theorem GetMinMax_empty (data : Grid float) :
  m_width data = 0%nat \/ m_height data = 0%nat ->
  GetMinMax_call data = Returned (100, neg_infinity).
Proof.
  intros H. unfold GetMinMax_call, GetMinMax.
  rewrite (GetMinMax_loops_empty data H). reflexivity.
Qed.

Lemma GetMinMax_empty_witness :
  GetMinMax_call empty_grid = Returned (100, neg_infinity).
Proof.
  apply (GetMinMax_empty empty_grid). left. reflexivity.
Defined.

(** C4 fails on the empty grid: the call returns a pair of numbers. *)
Lemma GetMinMax_empty_does_not_fail :
  m_data empty_grid = [] /\
  is_Thrown (GetMinMax_call empty_grid) = false /\
  GetMinMax_call empty_grid = Returned (100, neg_infinity).
Proof. repeat split. Qed.

(** The end-to-end scenario of the spec: the range of [[50, 150],
    [300, 100]] is (100, 300). *)
Example GetMinMax_scenario : GetMinMax scenario_grid = (100, 300).
Proof. vm_compute. reflexivity. Qed.

(** C8, as the code has it. [GetBounds] has no failure path: it returns a
    box, and an empty axis leaves its pair of bounds at the initial
    (+infinity, -infinity). *)
Theorem GetBounds_empty_axis (field : weatherData) :
  lons field = [] \/ lats field = [] ->
  GetBounds_call field = Returned (GetBounds field) /\
  (lons field = [] ->
   lonMin (GetBounds field) = infinity /\
   lonMax (GetBounds field) = neg_infinity) /\
  (lats field = [] ->
   latMin (GetBounds field) = infinity /\
   latMax (GetBounds field) = neg_infinity).
Proof.
  intros _. unfold GetBounds. cbn [lonMin lonMax latMin latMax].
  split; [reflexivity|].
  split; intros E; rewrite E; split; reflexivity.
Qed.

Lemma GetBounds_empty_axis_witness :
  GetBounds_call no_lons_field = Returned (GetBounds no_lons_field) /\
  (lons no_lons_field = [] ->
   lonMin (GetBounds no_lons_field) = infinity /\
   lonMax (GetBounds no_lons_field) = neg_infinity) /\
  (lats no_lons_field = [] ->
   latMin (GetBounds no_lons_field) = infinity /\
   latMax (GetBounds no_lons_field) = neg_infinity).
Proof.
  apply (GetBounds_empty_axis no_lons_field). left. reflexivity.
Defined.

(** C8 fails on a field without longitudes: the call returns the box
    (+infinity, -infinity, 10, 20). *)
Lemma GetBounds_empty_axis_does_not_fail :
  lons no_lons_field = [] /\
  is_Thrown (GetBounds_call no_lons_field) = false /\
  GetBounds_call no_lons_field =
    Returned (mkGeoBounds infinity neg_infinity 10 20).
Proof. repeat split. Qed.

(** ** Properties of [CoastlineOverlay] *)

Section CoastlineFacts.
Variable MultiPolygon : Type.
Variable computeBoundingRect : MultiPolygon -> RectF.
Variable intersects : RectF -> RectF -> bool.
Variable view : RectF.

Let keep (c : MultiPolygon) : bool := intersects (computeBoundingRect c) view.

Let visit (acc : list nat) (ic : nat * MultiPolygon) : list nat :=
  if keep (snd ic) then acc ++ [fst ic] else acc.

Lemma visit_loop (l : list MultiPolygon) :
  forall (start : nat) (acc : list nat) (i : nat),
  In i (fold_left visit (combine (seq start (length l)) l) acc) <->
  In i acc \/
  exists c, (start <= i)%nat /\ nth_error l (i - start) = Some c /\
            keep c = true.
Proof.
  induction l as [|a l IH]; intros start acc i.
  - simpl. split; auto. intros [H|(c & _ & H & _)]; auto.
    destruct (i - start)%nat; discriminate.
  - cbn [length seq combine fold_left]. rewrite IH. unfold visit at 1.
    cbn [fst snd]. split.
    + intros [H|(c & Hle & Hn & Hk)].
      * destruct (keep a) eqn:Ka; auto.
        apply in_app_or in H. destruct H as [H|[<-|[]]]; auto.
        right. exists a. rewrite Nat.sub_diag. auto.
      * right. exists c. split; [lia|]. split; auto.
        replace (i - start)%nat with (Datatypes.S (i - Datatypes.S start))
          by lia.
        assumption.
    + intros [H|(c & Hle & Hn & Hk)].
      * left. destruct (keep a); auto. apply in_or_app. auto.
      * destruct (Nat.eq_dec i start) as [->|Hne].
        -- rewrite Nat.sub_diag in Hn. injection Hn as <-.
           rewrite Hk. left. apply in_or_app. right; simpl; auto.
        -- right. exists c. split; [lia|]. split; auto.
           replace (i - start)%nat with (Datatypes.S (i - Datatypes.S start))
             in Hn by lia.
           assumption.
Qed.

(** C5. An index is in [visibleIndices_] after construction exactly when
    it is the index of a feature whose bounding rectangle intersects the
    visible rectangle. *)
Theorem visibleIndices_iff (loaded : list MultiPolygon) (i : nat) :
  In i (visibleIndices_
          (CoastlineOverlay_new computeBoundingRect intersects loaded view))
  <->
  exists c, nth_error loaded i = Some c /\
            intersects (computeBoundingRect c) view = true.
Proof.
  unfold CoastlineOverlay_new, Indexed. cbn [visibleIndices_].
  etransitivity; [apply (visit_loop loaded 0 [] i)|].
  rewrite Nat.sub_0_r. split.
  - intros [[]|(c & _ & Hn & Hk)]. eauto.
  - intros (c & Hn & Hk). right. exists c. split; [lia|]. auto.
Qed.

End CoastlineFacts.

(** C2. The matrix [draw] hands to [Transformer2D] maps a geographic
    point [p] to [p * scale + translate], with [pixelSize = destRect.size /
    (w, h)], [scale = (destRect.size - pixelSize) / (lonMax - lonMin,
    yMax - yMin)] and [translate = destRect.pos + pixelSize * 0.5 -
    (lonMin, yMin) * scale]; for a 2x2 grid drawn into the square of side
    100 at the origin, with longitudes and y in [0, 1], (0, 0) goes to
    (25, 25) and (1, 1) to (75, 75). *)
Theorem draw_transform_pixel_centers (MultiPolygon : Type)
    (self : CoastlineOverlay MultiPolygon) (w h : Z) (destRect : RectF)
    (lonMin lonMax yMin yMax : float) (p : Vec2) :
  let pixelSize :=
    mkVec2 (rw destRect / (1 * double_of_int32 w))
           (rh destRect / (1 * double_of_int32 h)) in
  let scale :=
    mkVec2 ((rw destRect - vx pixelSize) / (lonMax - lonMin))
           ((rh destRect - vy pixelSize) / (yMax - yMin)) in
  let translate :=
    mkVec2 (rx destRect + vx pixelSize * 0.5 - lonMin * vx scale)
           (ry destRect + vy pixelSize * 0.5 - yMin * vy scale) in
  let unit_square := draw_transform (setGridSize self 2 2)
                                    (mkRectF 0 0 100 100) 0 1 0 1 in
  Mat3x2_transformPoint
    (draw_transform (setGridSize self w h) destRect lonMin lonMax yMin yMax)
    p
  = mkVec2 (vx p * vx scale + vx translate) (vy p * vy scale + vy translate)
  /\ Mat3x2_transformPoint unit_square (mkVec2 0 0) = mkVec2 25 25
  /\ Mat3x2_transformPoint unit_square (mkVec2 1 1) = mkVec2 75 75.
Proof.
  cbv zeta. split; [reflexivity|].
  split; vm_compute; reflexivity.
Qed.

(** The worked example with the overlay built as [Main] builds it: the
    centre of the top-left pixel is [destRect.pos + pixelSize / 2]. *)
Example draw_transform_top_left :
  let overlay :=
    setGridSize (CoastlineOverlay_new (fun r : RectF => r)
                   (fun _ _ => true) [] (mkRectF 0 0 1 1)) 2 2 in
  let t := draw_transform overlay (mkRectF 0 0 100 100) 0 1 0 1 in
  m_scale t = mkVec2 50 50 /\ m_translate t = mkVec2 25 25.
Proof. split; vm_compute; reflexivity. Qed.

(** ** Properties of [CreateColormapImage] *)

Module Normalize.
Import FloatOrder FloatArith.

(** The clamp, read on the computed quotient [t]. *)
Lemma normalized_clamp (vmin vmax v : float) :
  let t := (v - vmin) * (1 / (vmax - vmin)) in
  ((t <? 0) = true -> normalized vmin vmax v = 0) /\
  ((1 <? t) = true -> normalized vmin vmax v = 1) /\
  ((t <? 0) = false -> (1 <? t) = false -> normalized vmin vmax v = t).
Proof.
  unfold normalized, Clamp. cbv zeta.
  set (t := (v - vmin) * (1 / (vmax - vmin))).
  repeat split.
  - intros H. destruct (1 <? t) eqn:E.
    + assert (C : (t <? 1) = true) by (apply (ltb_trans t 0 1); auto).
      rewrite (ltb_asym _ _ C) in E. discriminate.
    + rewrite H. reflexivity.
  - intros ->. reflexivity.
  - intros -> ->. reflexivity.
Qed.

(** With [vmin < vmax], a cell below [vmin] is normalized to 0 or to -0;
    the one exception is the product [-infinity * 0], which is NaN. *)
Lemma normalized_below_low (vmin vmax v : float) :
  (vmin <? vmax) = true -> (v <? vmin) = true ->
  normalized vmin vmax v = 0 \/
  normalized vmin vmax v = neg_zero \/
  (normalized vmin vmax v = nan /\
   v - vmin = neg_infinity /\ 1 / (vmax - vmin) = 0).
Proof.
  intros Hr Hv. unfold normalized. cbv zeta.
  pose proof (sub_negative v vmin Hv) as N.
  pose proof (div_one_positive _ (sub_positive vmax vmin Hr)) as D.
  destruct (SFmul_negative_nonneg _ _ N D) as [S|(Ex & Ey & Em)].
  - rewrite <- mul_spec in S.
    destruct (Clamp_signed_nonpositive _ S); auto.
  - right. right.
    assert (E1 : v - vmin = neg_infinity) by (apply Prim2SF_inj; exact Ex).
    assert (E2 : 1 / (vmax - vmin) = 0) by (apply Prim2SF_inj; exact Ey).
    rewrite E1, E2. repeat split.
Qed.

(** With [vmax] and [vmin] the same finite double, [1 / (vmax - vmin)] is
    +infinity and no cell is normalized into the open interval (0, 1):
    below gives 0, above gives 1, and a cell equal to the bound, or NaN,
    gives NaN. *)
Lemma normalized_degenerate (r v : float) :
  is_finite r = true ->
  normalized r r v = if v <? r then 0 else if r <? v then 1 else nan.
Proof.
  intros F. unfold normalized. cbv zeta.
  rewrite (sub_diag_finite r F).
  change (1 / zero) with infinity.
  assert (M : Prim2SF ((v - r) * infinity) =
              match Prim2SF (v - r) with
              | S754_finite s _ _ | S754_infinity s => S754_infinity s
              | _ => S754_nan
              end).
  { rewrite mul_spec. apply SFmul_infinity. }
  destruct (v <? r) eqn:Hlt.
  - pose proof (sub_negative v r Hlt) as N.
    apply Clamp_negative.
    rewrite M. destruct (Prim2SF (v - r)) as [s|s| |s m e];
      try discriminate N; destruct s; try discriminate N; reflexivity.
  - destruct (r <? v) eqn:Hgt.
    + pose proof (sub_positive v r Hgt) as P.
      assert (E : (v - r) * infinity = infinity).
      { apply Prim2SF_inj. rewrite M.
        destruct (Prim2SF (v - r)) as [s|s| |s m e];
          try discriminate P; destruct s; try discriminate P; reflexivity. }
      rewrite E. reflexivity.
    + assert (E : (v - r) * infinity = nan).
      { apply Prim2SF_inj. rewrite M, sub_spec. unfold SF64sub.
        change (Prim2SF nan) with S754_nan.
        pose proof (is_finite_spec r F) as Fr.
        rewrite ltb_spec in Hlt, Hgt. unfold SFltb in Hlt, Hgt.
        rewrite (SFcompare_swap (Prim2SF v) (Prim2SF r)) in Hgt.
        destruct (SFcompare (Prim2SF v) (Prim2SF r)) as [[]|] eqn:C;
          try discriminate.
        - destruct (SFcompare_Eq_inv _ _ C) as [->|[Zv Zr]].
          + rewrite (SFsub_diag _ Fr). reflexivity.
          + destruct (Prim2SF v) as [sv| | |]; try discriminate Zv.
            destruct (Prim2SF r) as [sr| | |]; try discriminate Zr.
            destruct sv, sr; reflexivity.
        - apply SFcompare_None in C.
          destruct (Prim2SF v) as [sv|sv| |sv mv ev];
            destruct (Prim2SF r) as [sr|sr| |sr mr er];
            try contradiction; try reflexivity;
            destruct C; discriminate. }
      rewrite E. reflexivity.
Qed.

End Normalize.

Section ColormapFacts.
Variable Color : Type.
Variable ColormapType : Type.
Variable Colormap01F : float -> ColormapType -> Color.
Variable blank : Color.

(** C3, as the code has it. Nothing special-cases a range whose bounds
    are the same finite double [r]: a cell below [r] gets the colour of 0,
    a cell above [r] the colour of 1, and a cell equal to [r] (or NaN) has
    NaN handed to the colour lookup. *)
Theorem CreateColormapImage_degenerate_range (data : Grid float) (r : float)
    (cmapType : ColormapType) :
  Grid_ok data ->
  is_finite r = true ->
  CreateColormapImage Color ColormapType Colormap01F blank data r r cmapType =
  mkGrid
    (map (fun v =>
            Colormap01F (if v <? r then 0 else if r <? v then 1 else nan)
                        cmapType)
         (m_data data))
    (m_width data) (m_height data).
Proof.
  intros Hok F. rewrite (Loops.CreateColormapImage_pixels _ _ _ _ _ _ _ _ Hok).
  f_equal. apply map_ext. intros v.
  rewrite (Normalize.normalized_degenerate r v F). reflexivity.
Qed.

(** C6, as the code has it. Each pixel is the colour of the clamped
    quotient [t = (v - vmin) * (1 / (vmax - vmin))]: the colour of 0 when
    [t < 0] and the colour of 1 when [t > 1].  With [vmin < vmax], a cell
    below [vmin] is given the colour of 0 or of -0, NaN being looked up
    for [-infinity * 0] only. *)
Theorem CreateColormapImage_clamp (data : Grid float) (vmin vmax : float)
    (cmapType : ColormapType) :
  Grid_ok data ->
  (vmin <? vmax) = true ->
  CreateColormapImage Color ColormapType Colormap01F blank
                      data vmin vmax cmapType =
  mkGrid (map (fun v => Colormap01F (normalized vmin vmax v) cmapType)
              (m_data data))
         (m_width data) (m_height data)
  /\
  forall v, In v (m_data data) ->
    let t := (v - vmin) * (1 / (vmax - vmin)) in
    ((t <? 0) = true -> normalized vmin vmax v = 0) /\
    ((1 <? t) = true -> normalized vmin vmax v = 1) /\
    ((v <? vmin) = true ->
     normalized vmin vmax v = 0 \/
     normalized vmin vmax v = neg_zero \/
     (normalized vmin vmax v = nan /\
      v - vmin = neg_infinity /\ 1 / (vmax - vmin) = 0)).
Proof.
  intros Hok Hr. split.
  - apply Loops.CreateColormapImage_pixels. assumption.
  - intros v _. cbv zeta.
    destruct (Normalize.normalized_clamp vmin vmax v) as (C0 & C1 & _).
    repeat split; auto.
    apply Normalize.normalized_below_low; assumption.
Qed.

End ColormapFacts.

Lemma CreateColormapImage_degenerate_range_witness :
  CreateColormapImage float unit lookup_argument 0 scenario_grid 150 150 tt =
  mkGrid
    (map (fun v =>
            lookup_argument
              (if v <? 150 then 0 else if 150 <? v then 1 else nan) tt)
         (m_data scenario_grid))
    (m_width scenario_grid) (m_height scenario_grid).
Proof.
  apply (CreateColormapImage_degenerate_range float unit lookup_argument 0
           scenario_grid 150 tt).
  - repeat split; vm_compute; discriminate.
  - reflexivity.
Defined.

(** C3 fails on the uniform grid [[1013, 1013]] with its own range
    (1013, 1013): the value looked up is NaN for both cells; and on
    [[1000, 1020]] with the range (1010, 1010) the two pixels differ. *)
Lemma CreateColormapImage_degenerate_range_not_constant :
  GetMinMax uniform_grid = (1013, 1013) /\
  (1013 =? 1013) = true /\
  m_data (CreateColormapImage float unit lookup_argument 0
            uniform_grid 1013 1013 tt) = [nan; nan] /\
  m_data (CreateColormapImage float unit lookup_argument 0
            (mkGrid [1000; 1020] 2 1) 1010 1010 tt) = [0; 1].
Proof. repeat split. Qed.

Lemma CreateColormapImage_clamp_witness :
  CreateColormapImage float unit lookup_argument 0 scenario_grid 100 300 tt =
  mkGrid (map (fun v => lookup_argument (normalized 100 300 v) tt)
              (m_data scenario_grid))
         (m_width scenario_grid) (m_height scenario_grid)
  /\
  forall v, In v (m_data scenario_grid) ->
    let t := (v - 100) * (1 / (300 - 100)) in
    ((t <? 0) = true -> normalized 100 300 v = 0) /\
    ((1 <? t) = true -> normalized 100 300 v = 1) /\
    ((v <? 100) = true ->
     normalized 100 300 v = 0 \/
     normalized 100 300 v = neg_zero \/
     (normalized 100 300 v = nan /\
      v - 100 = neg_infinity /\ 1 / (300 - 100) = 0)).
Proof.
  apply (CreateColormapImage_clamp float unit lookup_argument 0
           scenario_grid 100 300 tt).
  - repeat split; vm_compute; discriminate.
  - reflexivity.
Defined.

(** C6 fails above the range by rounding: with the range (-49, 0) the cell
    2^-60 is above 0, yet [2^-60 - (-49)] rounds to 49 and [49 * (1 / 49)]
    to the double just below 1, which is what is looked up.  It fails
    below the range on [-infinity * 0]: with the range (0, +infinity) the
    cell -infinity has NaN looked up. *)
Lemma CreateColormapImage_clamp_not_exact :
  ((-49 <? 0) = true /\ (0 <? 0x1p-60) = true /\
   m_data (CreateColormapImage float unit lookup_argument 0
             (mkGrid [0x1p-60] 1 1) (-49) 0 tt) = [0x1.fffffffffffffp-1] /\
   (0x1.fffffffffffffp-1 <? 1) = true) /\
  ((0 <? infinity) = true /\ (neg_infinity <? 0) = true /\
   m_data (CreateColormapImage float unit lookup_argument 0
             (mkGrid [neg_infinity] 1 1) 0 infinity tt) = [nan]).
Proof. repeat split. Qed.

(** The end-to-end scenario of the spec: with the range (100, 300), the
    cell 50 is normalized to 0 and the cell 300 to 1. *)
Example CreateColormapImage_scenario :
  m_data (CreateColormapImage float unit lookup_argument 0
            scenario_grid 100 300 tt) = [0; 0.25; 1; 0].
Proof. vm_compute. reflexivity. Qed.

(** ** Further properties of [GetMinMax] *)

Module MinMaxMore.
Import FloatFacts.

(** A cell that is not a number leaves the three locals as they are. *)
Lemma body_nan (s : MinMaxState) (v : float) :
  is_nan v = true -> GetMinMax_body s v = s.
Proof.
  intros N. unfold GetMinMax_body.
  destruct (100 <=? v) eqn:H.
  - destruct (leb_not_nan _ _ H) as [_ C]. congruence.
  - destruct (mx s <? v) eqn:L.
    + destruct (ltb_not_nan _ _ L) as [_ C]. congruence.
    + destruct s; reflexivity.
Qed.

Lemma fold_skips_nan (cells : list float) :
  forall s,
  fold_left GetMinMax_body (filter (fun v => negb (is_nan v)) cells) s =
  fold_left GetMinMax_body cells s.
Proof.
  induction cells as [|v cells IH]; intros s; [reflexivity|].
  cbn [filter]. destruct (is_nan v) eqn:N; cbn [negb fold_left].
  - rewrite (body_nan s v N). apply IH.
  - apply IH.
Qed.

End MinMaxMore.

(** X1. The pair returned by [GetMinMax] is ordered, low <= high, exactly
    when some cell is [>= 100]. *)
Theorem GetMinMax_ordered_iff (data : Grid float) :
  Grid_ok data ->
  ((fst (GetMinMax data) <=? snd (GetMinMax data)) = true <->
   exists v, In v (m_data data) /\ (100 <=? v) = true).
Proof.
  intros Hok. rewrite (MinMax.GetMinMax_scan data Hok). cbn [fst snd].
  pose proof (MinMax.Inv_scan (m_data data)) as I.
  rewrite <- MinMax.hasMin_iff.
  destruct (hasMin (scan (m_data data))) eqn:Hs; cbn [negb].
  - split; auto. intros _.
    pose proof (inv_mn_valid _ _ I Hs) as V.
    apply not_ltb_leb.
    + apply (leb_not_nan _ _ V).
    + apply (inv_mx_num _ _ I).
    + apply (inv_mx_top _ _ I). apply (inv_mn_in _ _ I Hs).
  - split; [|discriminate]. intros H. exfalso.
    destruct (inv_mx_in _ _ I) as [E|E].
    + rewrite E in H. vm_compute in H. discriminate.
    + rewrite (inv_none _ _ I Hs _ E) in H. discriminate.
Qed.

Lemma GetMinMax_ordered_iff_witness :
  (fst (GetMinMax scenario_grid) <=? snd (GetMinMax scenario_grid)) = true <->
  exists v, In v (m_data scenario_grid) /\ (100 <=? v) = true.
Proof.
  apply (GetMinMax_ordered_iff scenario_grid).
  repeat split; vm_compute; discriminate.
Defined.

(** X2. As soon as one cell is a number, the high returned by [GetMinMax]
    is the greatest cell, whatever the cells are compared with 100. *)
Theorem GetMinMax_high_greatest (data : Grid float) :
  Grid_ok data ->
  (exists v, In v (m_data data) /\ is_nan v = false) ->
  max_over (m_data data) (snd (GetMinMax data)).
Proof.
  intros Hok H. rewrite (MinMax.GetMinMax_scan data Hok). cbn [snd].
  apply MinMax.scan_max. assumption.
Qed.

(** X3. Cells that are NaN do not count: a grid holding the cells of
    [data] that are numbers, in the same order, has the same range. *)
Theorem GetMinMax_ignores_nan (data data' : Grid float) :
  Grid_ok data -> Grid_ok data' ->
  m_data data' = filter (fun v => negb (is_nan v)) (m_data data) ->
  GetMinMax data' = GetMinMax data.
Proof.
  intros Hok Hok' E.
  rewrite (MinMax.GetMinMax_scan data Hok), (MinMax.GetMinMax_scan data' Hok').
  unfold scan. rewrite E, MinMaxMore.fold_skips_nan. reflexivity.
Qed.

(** X4. On a grid whose cells are all NaN, [GetMinMax] returns the
    fallback low 100 and the initial high, minus infinity. *)
Theorem GetMinMax_all_nan (data : Grid float) :
  Grid_ok data ->
  (forall v, In v (m_data data) -> is_nan v = true) ->
  GetMinMax data = (100, neg_infinity).
Proof.
  intros Hok Hall. rewrite (MinMax.GetMinMax_scan data Hok). unfold scan.
  rewrite <- MinMaxMore.fold_skips_nan.
  replace (filter (fun v => negb (is_nan v)) (m_data data)) with (@nil float).
  - reflexivity.
  - symmetry. induction (m_data data) as [|v l IH]; [reflexivity|].
    cbn [filter]. rewrite (Hall v) by (simpl; auto). cbn [negb].
    apply IH. intros u Hu. apply Hall. simpl; auto.
Qed.

Lemma GetMinMax_high_greatest_witness :
  max_over (m_data gappy_grid) (snd (GetMinMax gappy_grid)).
Proof.
  apply (GetMinMax_high_greatest gappy_grid).
  - repeat split; vm_compute; discriminate.
  - exists 150. split; [simpl; auto | reflexivity].
Defined.

Lemma GetMinMax_ignores_nan_witness :
  GetMinMax gappy_grid_numbers = GetMinMax gappy_grid.
Proof.
  apply (GetMinMax_ignores_nan gappy_grid gappy_grid_numbers).
  - repeat split; vm_compute; discriminate.
  - repeat split; vm_compute; discriminate.
  - reflexivity.
Defined.

Lemma GetMinMax_all_nan_witness :
  GetMinMax all_nan_grid = (100, neg_infinity).
Proof.
  apply (GetMinMax_all_nan all_nan_grid).
  - repeat split; vm_compute; discriminate.
  - intros v [<-|[<-|[]]]; reflexivity.
Defined.

(** ** Further properties of [CreateColormapImage] *)

Module NormalizeMore.
Import FloatOrder FloatFacts FloatArith.

Local Open Scope Z_scope.

Lemma valid_finite_emax (s : bool) (m : positive) (e : Z) :
  valid_binary (S754_finite s m e) = true -> e <= 971.
Proof.
  unfold SpecFloat.valid_binary, bounded.
  intros H. apply andb_true_iff in H. destruct H as [_ H].
  apply Z.leb_le in H. unfold emax, prec in H. lia.
Qed.

(** [1 / d] for a positive finite [d] is a positive number or +infinity,
    never a zero. *)
Lemma SFdiv_one_nonzero (m : positive) (e : Z) :
  valid_binary (S754_finite false m e) = true ->
  nonzero_of_sign false
    (SFdiv prec emax (Prim2SF 1) (S754_finite false m e)) = true.
Proof.
  intros V.
  pose proof (valid_finite _ _ _ V) as (Emin & _).
  pose proof (valid_finite_emax _ _ _ V) as Emax.
  pose proof (digits2_pos_bounds m) as [_ B].
  assert (D : Z.pos (digits2_pos m) <= 53).
  { revert V. unfold SpecFloat.valid_binary, bounded, canonical_mantissa.
    intros V. apply andb_true_iff in V. destruct V as [V _].
    apply Z.eqb_eq in V. unfold fexp, SpecFloat.emin, prec, emax in V. lia. }
  assert (M : Z.pos m < 2 ^ 53).
  { apply Z.lt_le_trans with (2 ^ Z.pos (digits2_pos m)); auto.
    apply Z.pow_le_mono_r; lia. }
  change (Prim2SF 1) with (S754_finite false 4503599627370496 (-52)).
  cbn [SFdiv xorb]. unfold SFdiv_core_binary.
  change (Zdigits2 (Z.pos 4503599627370496)) with 53.
  cbn [Zdigits2].
  set (e' := Z.min _ _).
  assert (E1 : SpecFloat.emin prec emax <= e').
  { unfold e', fexp, SpecFloat.emin, prec, emax in *. lia. }
  assert (S1 : 1 <= -52 - e - e').
  { unfold e', fexp, SpecFloat.emin, prec, emax in *. lia. }
  destruct (-52 - e - e') as [|p|p] eqn:Es; try lia.
  assert (Hm' : Z.pos m <= Z.shiftl (Z.pos 4503599627370496) (Z.pos p)).
  { rewrite Z.shiftl_mul_pow2 by lia.
    assert (P : 2 ^ 1 <= 2 ^ Z.pos p) by (apply Z.pow_le_mono_r; lia).
    change (2 ^ 1) with 2 in P.
    change (2 ^ 53) with (4503599627370496 * 2) in M. nia. }
  assert (Q : 0 < Z.shiftl (Z.pos 4503599627370496) (Z.pos p) / Z.pos m)
    by (apply Z.div_str_pos; split; [lia | exact Hm']).
  unfold Z.div in Q.
  destruct (Z.div_eucl (Z.shiftl (Z.pos 4503599627370496) (Z.pos p))
                       (Z.pos m)) as [q r].
  apply binary_round_aux_nonzero; assumption.
Qed.

Lemma div_one_nonzero (d : float) :
  nonzero_of_sign false (Prim2SF d) = true -> is_finite d = true ->
  nonzero_of_sign false (Prim2SF (1 / d)) = true.
Proof.
  intros P F. rewrite div_spec. unfold SF64div.
  pose proof (Prim2SF_valid d) as V.
  pose proof (is_finite_spec d F) as Fd.
  destruct (Prim2SF d) as [s|s| |s m e]; try discriminate P;
    try contradiction.
  destruct s; try discriminate P.
  apply SFdiv_one_nonzero. assumption.
Qed.

(** A negative factor times a positive one is negative, or [-0]. *)
Lemma SFmul_negative_positive (x y : spec_float) :
  nonzero_of_sign true x = true -> nonzero_of_sign false y = true ->
  has_sign true (SFmul prec emax x y) = true.
Proof.
  destruct x as [sx|sx| |sx mx ex]; try discriminate;
    destruct y as [sy|sy| |sy my ey]; try discriminate;
    intros Hx Hy; destruct sx; try discriminate Hx;
    destruct sy; try discriminate Hy; auto.
  cbn [SFmul xorb]. apply binary_round_aux_sign. lia.
Qed.

End NormalizeMore.

Module ColormapMore.
Import FloatOrder FloatFacts FloatArith.

(** The argument of the colour lookup is NaN when the quotient is, and
    lies between 0 and 1 otherwise. *)
Lemma normalized_unit (vmin vmax v : float) :
  is_nan (normalized vmin vmax v) =
    is_nan ((v - vmin) * (1 / (vmax - vmin))) /\
  (is_nan (normalized vmin vmax v) = false ->
   (0 <=? normalized vmin vmax v) = true /\
   (normalized vmin vmax v <=? 1) = true).
Proof.
  unfold normalized, Clamp. cbv zeta.
  set (t := (v - vmin) * (1 / (vmax - vmin))).
  destruct (1 <? t) eqn:H1.
  - destruct (ltb_not_nan _ _ H1) as [_ N]. rewrite N.
    split; [reflexivity|]. intros _. split; reflexivity.
  - destruct (t <? 0) eqn:H0.
    + destruct (ltb_not_nan _ _ H0) as [N _]. rewrite N.
      split; [reflexivity|]. intros _. split; reflexivity.
    + split; [reflexivity|]. intros N. split.
      * apply not_ltb_leb; auto.
      * apply not_ltb_leb; auto.
Qed.

(** With [vmin < vmax] and a finite [vmax - vmin], a cell below [vmin] is
    normalized to 0 or to -0. *)
Lemma normalized_floor (vmin vmax v : float) :
  (vmin <? vmax) = true -> is_finite (vmax - vmin) = true ->
  (v <? vmin) = true ->
  normalized vmin vmax v = 0 \/ normalized vmin vmax v = neg_zero.
Proof.
  intros Hr F Hv. unfold normalized. cbv zeta.
  apply Clamp_signed_nonpositive. rewrite mul_spec.
  apply NormalizeMore.SFmul_negative_positive.
  - apply sub_negative. assumption.
  - apply NormalizeMore.div_one_nonzero; auto.
    apply sub_positive. assumption.
Qed.

Lemma cell_index (w h y x : nat) :
  (y < h)%nat -> (x < w)%nat -> (y * w + x < h * w)%nat.
Proof. intros Hy Hx. nia. Qed.

Section Pixel.
Variable Color : Type.
Variable ColormapType : Type.
Variable Colormap01F : float -> ColormapType -> Color.
Variable blank : Color.

(** The pixel at row [y], column [x]. *)
Lemma pixel_at (data : Grid float) (vmin vmax : float)
    (cmapType : ColormapType) (y x : nat) :
  Grid_ok data -> (y < m_height data)%nat -> (x < m_width data)%nat ->
  Grid_at (CreateColormapImage Color ColormapType Colormap01F blank
                               data vmin vmax cmapType) blank y x =
  Colormap01F (normalized vmin vmax (Grid_at data nan y x)) cmapType.
Proof.
  intros Hok Hy Hx.
  rewrite (Loops.CreateColormapImage_pixels _ _ _ _ _ _ _ _ Hok).
  unfold Grid_at. cbn [m_data m_width].
  destruct Hok as (Hlen & _).
  pose proof (cell_index _ _ _ _ Hy Hx) as Hi. rewrite <- Hlen in Hi.
  rewrite (nth_indep _ blank
             (Colormap01F (normalized vmin vmax nan) cmapType))
    by (rewrite length_map; exact Hi).
  apply (map_nth (fun v => Colormap01F (normalized vmin vmax v) cmapType)).
Qed.

End Pixel.

End ColormapMore.

Section ColormapMoreFacts.
Variable Color : Type.
Variable ColormapType : Type.
Variable Colormap01F : float -> ColormapType -> Color.
Variable blank : Color.

(** X5. The image has the dimensions of the grid and a full buffer, and
    its pixel at row [y], column [x] is the colour of the normalized
    value of the cell at row [y], column [x]; the fresh image's own
    pixels do not show. *)
Theorem CreateColormapImage_shape (data : Grid float) (vmin vmax : float)
    (cmapType : ColormapType) :
  Grid_ok data ->
  let img := CreateColormapImage Color ColormapType Colormap01F blank
                                 data vmin vmax cmapType in
  m_width img = m_width data /\
  m_height img = m_height data /\
  Grid_ok img /\
  forall y x, (y < m_height data)%nat -> (x < m_width data)%nat ->
    Grid_at img blank y x =
    Colormap01F (normalized vmin vmax (Grid_at data nan y x)) cmapType.
Proof.
  intros Hok. cbv zeta. split; [|split; [|split]].
  - rewrite (Loops.CreateColormapImage_pixels _ _ _ _ _ _ _ _ Hok).
    reflexivity.
  - rewrite (Loops.CreateColormapImage_pixels _ _ _ _ _ _ _ _ Hok).
    reflexivity.
  - rewrite (Loops.CreateColormapImage_pixels _ _ _ _ _ _ _ _ Hok).
    destruct Hok as (Hlen & Hw & Hh).
    repeat split; cbn [m_data m_width m_height]; auto.
    rewrite length_map. exact Hlen.
  - intros y x Hy Hx. apply ColormapMore.pixel_at; assumption.
Qed.

(** X6. [Colormap01F] is never called with a number outside [0, 1]: every
    pixel is the colour of a value that is NaN or lies between 0 and 1. *)
Theorem CreateColormapImage_lookup_in_unit (data : Grid float)
    (vmin vmax : float) (cmapType : ColormapType) :
  Grid_ok data ->
  exists ts : list float,
    m_data (CreateColormapImage Color ColormapType Colormap01F blank
                                data vmin vmax cmapType) =
      map (fun t => Colormap01F t cmapType) ts /\
    length ts = length (m_data data) /\
    Forall (fun t => is_nan t = true \/
                     ((0 <=? t) = true /\ (t <=? 1) = true)) ts.
Proof.
  intros Hok. exists (map (normalized vmin vmax) (m_data data)).
  rewrite (Loops.CreateColormapImage_pixels _ _ _ _ _ _ _ _ Hok).
  cbn [m_data]. rewrite map_map, length_map. repeat split.
  apply Forall_forall. intros t Ht. apply in_map_iff in Ht.
  destruct Ht as (v & <- & _).
  destruct (is_nan (normalized vmin vmax v)) eqn:N; auto.
  right. apply (ColormapMore.normalized_unit vmin vmax v). assumption.
Qed.

(** X7. With [vmin < vmax] and a finite [vmax - vmin], the pixel of every
    cell below [vmin] is the colour of 0 or of -0: NaN is not looked up
    for it. *)
Theorem CreateColormapImage_floor (data : Grid float) (vmin vmax : float)
    (cmapType : ColormapType) (y x : nat) :
  Grid_ok data ->
  (vmin <? vmax) = true -> is_finite (vmax - vmin) = true ->
  (y < m_height data)%nat -> (x < m_width data)%nat ->
  (Grid_at data nan y x <? vmin) = true ->
  let px := Grid_at (CreateColormapImage Color ColormapType Colormap01F
                       blank data vmin vmax cmapType) blank y x in
  px = Colormap01F 0 cmapType \/ px = Colormap01F neg_zero cmapType.
Proof.
  intros Hok Hr F Hy Hx Hv. cbv zeta.
  rewrite (ColormapMore.pixel_at _ _ _ _ _ _ _ _ _ _ Hok Hy Hx).
  destruct (ColormapMore.normalized_floor vmin vmax _ Hr F Hv) as [-> | ->];
    auto.
Qed.

End ColormapMoreFacts.

Lemma CreateColormapImage_shape_witness :
  let img := CreateColormapImage float unit lookup_argument 0
                                 scenario_grid 100 300 tt in
  m_width img = m_width scenario_grid /\
  m_height img = m_height scenario_grid /\
  Grid_ok img /\
  forall y x, (y < m_height scenario_grid)%nat ->
              (x < m_width scenario_grid)%nat ->
    Grid_at img 0 y x =
    lookup_argument (normalized 100 300 (Grid_at scenario_grid nan y x)) tt.
Proof.
  apply (CreateColormapImage_shape float unit lookup_argument 0
           scenario_grid 100 300 tt).
  repeat split; vm_compute; discriminate.
Defined.

Lemma CreateColormapImage_lookup_in_unit_witness :
  exists ts : list float,
    m_data (CreateColormapImage float unit lookup_argument 0
                                gappy_grid 100 150 tt) =
      map (fun t => lookup_argument t tt) ts /\
    length ts = length (m_data gappy_grid) /\
    Forall (fun t => is_nan t = true \/
                     ((0 <=? t) = true /\ (t <=? 1) = true)) ts.
Proof.
  apply (CreateColormapImage_lookup_in_unit float unit lookup_argument 0
           gappy_grid 100 150 tt).
  repeat split; vm_compute; discriminate.
Defined.

Lemma CreateColormapImage_floor_witness :
  let px := Grid_at (CreateColormapImage float unit lookup_argument 0
                       scenario_grid 100 300 tt) 0 0 0 in
  px = lookup_argument 0 tt \/ px = lookup_argument neg_zero tt.
Proof.
  apply (CreateColormapImage_floor float unit lookup_argument 0
           scenario_grid 100 300 tt 0 0).
  - repeat split; vm_compute; discriminate.
  - reflexivity.
  - reflexivity.
  - vm_compute. lia.
  - vm_compute. lia.
  - reflexivity.
Defined.

(** ** Properties of [Main], before the loop *)

Module MainMore.
Import FloatFacts.

(** On a grid whose cells are all the same [c >= 100], both bounds are
    [c]. *)
Lemma uniform_range (cells : list float) (c : float) :
  cells <> [] -> (forall v, In v cells -> v = c) ->
  (100 <=? c) = true ->
  hasMin (scan cells) = true /\ mn (scan cells) = c /\ mx (scan cells) = c.
Proof.
  intros Hne Hall Hc.
  pose proof (MinMax.Inv_scan cells) as I.
  assert (Hin : In c cells).
  { destruct cells as [|v l]; [congruence|].
    rewrite <- (Hall v) by (simpl; auto). simpl; auto. }
  assert (Hs : hasMin (scan cells) = true).
  { apply MinMax.hasMin_iff. eauto. }
  repeat split; auto.
  - apply Hall. apply (inv_mn_in _ _ I Hs).
  - destruct (inv_mx_in _ _ I) as [E|E]; [|apply Hall; assumption].
    pose proof (inv_mx_top _ _ I c Hin) as T. rewrite E in T.
    assert (L : (neg_infinity <? c) = true)
      by (apply (ltb_leb_trans _ 100 _); auto).
    congruence.
Qed.

End MainMore.

Section MainFacts.
Variable Color : Type.
Variable ColormapType : Type.
Variable Colormap01F : float -> ColormapType -> Color.
Variable blank : Color.
Variable Turbo : ColormapType.

(** X8. On a field whose cells are all the same finite value [c >= 100],
    [Main] computes the range ([c], [c]) and every pixel of its image is
    the colour looked up at NaN. *)
Theorem Main_colormap_uniform (field : weatherData) (c : float) :
  Grid_ok (pmsl field) ->
  m_data (pmsl field) <> [] ->
  (forall v, In v (m_data (pmsl field)) -> v = c) ->
  (100 <=? c) = true -> is_finite c = true ->
  GetMinMax (pmsl field) = (c, c) /\
  Main_colormap Color ColormapType Colormap01F blank Turbo field =
  mkGrid (map (fun _ => Colormap01F nan Turbo) (m_data (pmsl field)))
         (m_width (pmsl field)) (m_height (pmsl field)).
Proof.
  intros Hok Hne Hall Hc F.
  destruct (MainMore.uniform_range _ c Hne Hall Hc) as (Hs & Hmn & Hmx).
  assert (R : GetMinMax (pmsl field) = (c, c)).
  { rewrite (MinMax.GetMinMax_scan _ Hok), Hs, Hmn, Hmx. reflexivity. }
  split; [exact R|].
  unfold Main_colormap. rewrite R.
  rewrite (Loops.CreateColormapImage_pixels _ _ _ _ _ _ _ _ Hok).
  f_equal. apply map_ext_in. intros v Hv. rewrite (Hall v Hv).
  rewrite (Normalize.normalized_degenerate c c F).
  rewrite FloatFacts.ltb_irrefl. reflexivity.
Qed.

(** X9. When the range [Main] computes has low < high and a finite
    width, the pixel of every cell below 100 is the colour of 0 or of
    -0. *)
Theorem Main_colormap_floor (field : weatherData) (y x : nat) :
  Grid_ok (pmsl field) ->
  (fst (GetMinMax (pmsl field)) <? snd (GetMinMax (pmsl field))) = true ->
  is_finite (snd (GetMinMax (pmsl field)) - fst (GetMinMax (pmsl field)))
    = true ->
  (y < m_height (pmsl field))%nat -> (x < m_width (pmsl field))%nat ->
  (Grid_at (pmsl field) nan y x <? 100) = true ->
  let px := Grid_at (Main_colormap Color ColormapType Colormap01F blank
                                   Turbo field) blank y x in
  px = Colormap01F 0 Turbo \/ px = Colormap01F neg_zero Turbo.
Proof.
  intros Hok Hr F Hy Hx Hv. cbv zeta. unfold Main_colormap.
  assert (L : (100 <=? fst (GetMinMax (pmsl field))) = true).
  { rewrite (MinMax.GetMinMax_scan _ Hok). cbn [fst].
    destruct (hasMin (scan (m_data (pmsl field)))) eqn:Hs; simpl.
    - apply (inv_mn_valid _ _ (MinMax.Inv_scan _) Hs).
    - reflexivity. }
  destruct (GetMinMax (pmsl field)) as [lo hi]. cbn [fst snd] in *.
  rewrite (ColormapMore.pixel_at _ _ _ _ _ _ _ _ _ _ Hok Hy Hx).
  assert (Hlo : (Grid_at (pmsl field) nan y x <? lo) = true)
    by (apply (FloatFacts.ltb_leb_trans _ 100 _); auto).
  destruct (ColormapMore.normalized_floor lo hi _ Hr F Hlo) as [-> | ->];
    auto.
Qed.

End MainFacts.

Lemma Main_colormap_uniform_witness :
  GetMinMax (pmsl uniform_field) = (1013, 1013) /\
  Main_colormap float unit lookup_argument 0 tt uniform_field =
  mkGrid (map (fun _ => lookup_argument nan tt) (m_data (pmsl uniform_field)))
         (m_width (pmsl uniform_field)) (m_height (pmsl uniform_field)).
Proof.
  apply (Main_colormap_uniform float unit lookup_argument 0 tt
           uniform_field 1013).
  - repeat split; vm_compute; discriminate.
  - discriminate.
  - intros v [<-|[<-|[]]]; reflexivity.
  - reflexivity.
  - reflexivity.
Defined.

Lemma Main_colormap_floor_witness :
  let px := Grid_at (Main_colormap float unit lookup_argument 0 tt
                                   scenario_field) 0 0 0 in
  px = lookup_argument 0 tt \/ px = lookup_argument neg_zero tt.
Proof.
  apply (Main_colormap_floor float unit lookup_argument 0 tt
           scenario_field 0 0).
  - repeat split; vm_compute; discriminate.
  - reflexivity.
  - reflexivity.
  - vm_compute. lia.
  - vm_compute. lia.
  - reflexivity.
Defined.

(** ** Properties of [GetBounds] *)

Module Bounds.
Import FloatOrder FloatFacts FloatArith.

Lemma ltb_infinity (x : float) : (infinity <? x) = false.
Proof.
  rewrite ltb_spec. change (Prim2SF infinity) with (S754_infinity false).
  unfold SFltb.
  destruct (Prim2SF x) as [s|s| |s m e]; simpl; auto; destruct s; reflexivity.
Qed.

Lemma BoundsInv_init : BoundsInv [] (infinity, neg_infinity).
Proof. constructor; simpl; auto; contradiction. Qed.

Lemma BoundsInv_step (seen : list float) (b : float * float) (v : float) :
  BoundsInv seen b -> BoundsInv (seen ++ [v]) (bounds_step b v).
Proof.
  intros I. unfold bounds_step, Min, Max. constructor; cbn [fst snd].
  - destruct (v <? fst b) eqn:L.
    + apply (ltb_not_nan _ _ L).
    + apply (binv_lo_num _ _ I).
  - destruct (v <? fst b).
    + right. apply in_or_app. right; simpl; auto.
    + destruct (binv_lo_in _ _ I); auto. right. apply in_or_app. auto.
  - intros u Hu. apply in_app_or in Hu. destruct Hu as [Hu|[<-|[]]].
    + pose proof (binv_lo_low _ _ I u Hu) as T.
      destruct (v <? fst b) eqn:L; auto.
      destruct (u <? v) eqn:Huv; auto.
      rewrite (ltb_trans _ _ _ Huv L) in T. discriminate.
    + destruct (v <? fst b) eqn:L; auto. apply ltb_irrefl.
  - destruct (snd b <? v) eqn:L.
    + apply (ltb_not_nan _ _ L).
    + apply (binv_hi_num _ _ I).
  - destruct (snd b <? v).
    + right. apply in_or_app. right; simpl; auto.
    + destruct (binv_hi_in _ _ I); auto. right. apply in_or_app. auto.
  - intros u Hu. apply in_app_or in Hu. destruct Hu as [Hu|[<-|[]]].
    + pose proof (binv_hi_top _ _ I u Hu) as T.
      destruct (snd b <? v) eqn:L; auto.
      destruct (v <? u) eqn:Hvu; auto.
      rewrite (ltb_trans _ _ _ L Hvu) in T. discriminate.
    + destruct (snd b <? v) eqn:L; auto. apply ltb_irrefl.
Qed.

Lemma BoundsInv_scan (axis : list float) : BoundsInv axis (bounds_scan axis).
Proof.
  unfold bounds_scan.
  change (fun (b : float * float) (v : float) =>
            (Min (fst b) v, Max (snd b) v)) with bounds_step.
  induction axis as [|v axis IH] using rev_ind.
  - apply BoundsInv_init.
  - rewrite fold_left_app. simpl. apply BoundsInv_step. assumption.
Qed.

(** On an axis with a number, the running minimum and maximum end as the
    least and the greatest value. *)
Lemma scan_bounds (axis : list float) :
  (exists v, In v axis /\ is_nan v = false) ->
  min_over axis (fst (bounds_scan axis)) /\
  max_over axis (snd (bounds_scan axis)) /\
  (fst (bounds_scan axis) <=? snd (bounds_scan axis)) = true.
Proof.
  pose proof (BoundsInv_scan axis) as I. intros (v & Hv & Nv).
  set (b := bounds_scan axis) in *.
  assert (Lo : forall u, In u axis -> is_nan u = false ->
                         (fst b <=? u) = true).
  { intros u Hu Nu. apply not_ltb_leb; auto.
    - apply (binv_lo_num _ _ I).
    - apply (binv_lo_low _ _ I u Hu). }
  assert (Hi : forall u, In u axis -> is_nan u = false ->
                         (u <=? snd b) = true).
  { intros u Hu Nu. apply not_ltb_leb; auto.
    - apply (binv_hi_num _ _ I).
    - apply (binv_hi_top _ _ I u Hu). }
  assert (InLo : In (fst b) axis).
  { destruct (binv_lo_in _ _ I) as [E|E]; auto.
    pose proof (Lo v Hv Nv) as L. rewrite E in L.
    assert (Ev : v = infinity); [|rewrite E, <- Ev; exact Hv].
    destruct (incomparable_eq v infinity Nv eq_refl) as [H|[_ H]]; auto.
    - apply leb_not_ltb. assumption.
    - apply ltb_infinity.
    - vm_compute in H. discriminate. }
  assert (InHi : In (snd b) axis).
  { destruct (binv_hi_in _ _ I) as [E|E]; auto.
    pose proof (Hi v Hv Nv) as L. rewrite E in L.
    assert (Ev : v = neg_infinity); [|rewrite E, <- Ev; exact Hv].
    destruct (incomparable_eq v neg_infinity Nv eq_refl) as [H|[_ H]]; auto.
    - apply ltb_neg_infinity.
    - apply leb_not_ltb. assumption.
    - vm_compute in H. discriminate. }
  repeat split; auto.
  apply (leb_trans _ v _); auto.
Qed.

End Bounds.

(** X10. On a field whose two axes each hold a number, [GetBounds]
    returns for each axis its least value as min and its greatest value
    as max, and min <= max. *)
Theorem GetBounds_extrema (field : weatherData) :
  (exists v, In v (lons field) /\ is_nan v = false) ->
  (exists v, In v (lats field) /\ is_nan v = false) ->
  let bounds := GetBounds field in
  min_over (lons field) (lonMin bounds) /\
  max_over (lons field) (lonMax bounds) /\
  (lonMin bounds <=? lonMax bounds) = true /\
  min_over (lats field) (latMin bounds) /\
  max_over (lats field) (latMax bounds) /\
  (latMin bounds <=? latMax bounds) = true.
Proof.
  intros Hlon Hlat. cbv zeta. unfold GetBounds.
  cbn [lonMin lonMax latMin latMax].
  destruct (Bounds.scan_bounds _ Hlon) as (A & B & C).
  destruct (Bounds.scan_bounds _ Hlat) as (D & E & F).
  exact (conj A (conj B (conj C (conj D (conj E F))))).
Qed.

Lemma GetBounds_extrema_witness :
  let bounds := GetBounds uniform_field in
  min_over (lons uniform_field) (lonMin bounds) /\
  max_over (lons uniform_field) (lonMax bounds) /\
  (lonMin bounds <=? lonMax bounds) = true /\
  min_over (lats uniform_field) (latMin bounds) /\
  max_over (lats uniform_field) (latMax bounds) /\
  (latMin bounds <=? latMax bounds) = true.
Proof.
  apply (GetBounds_extrema uniform_field).
  - exists 135. split; [simpl; auto | reflexivity].
  - exists 35. split; [simpl; auto | reflexivity].
Defined.

(** ** Properties of the visible rectangle of [Main] *)

Module ViewRect.
Import FloatOrder FloatFacts FloatArith.

Lemma SFcompare_opp (x y : spec_float) :
  SFcompare (SFopp x) (SFopp y) = SFcompare y x.
Proof.
  destruct x as [sx|sx| |sx mx ex], y as [sy|sy| |sy my ey]; simpl; auto;
    try (destruct sx; reflexivity); try (destruct sy; reflexivity);
    try (destruct sx, sy; reflexivity).
  change (Pos.compare_cont Eq my mx) with (Pos.compare my mx).
  change (Pos.compare_cont Eq mx my) with (Pos.compare mx my).
  rewrite (Z.compare_antisym ex ey), (Pos.compare_antisym mx my).
  destruct sx, sy; simpl; auto;
    destruct (Z.compare ex ey); simpl; auto;
    destruct (Pos.compare mx my); reflexivity.
Qed.

Lemma leb_opp (a b : float) :
  (a <=? b) = true -> (- b <=? - a) = true.
Proof.
  rewrite !leb_spec, !opp_spec. unfold SFleb.
  rewrite SFcompare_opp. trivial.
Qed.

Lemma is_finite_not_nan (x : float) :
  is_finite x = true -> is_nan x = false.
Proof.
  unfold is_finite. destruct (is_nan x); [discriminate|reflexivity].
Qed.

Lemma is_finite_class (x : float) :
  match Prim2SF x with
  | S754_zero _ | S754_finite _ _ _ => True
  | _ => False
  end ->
  is_finite x = true.
Proof.
  unfold is_finite, is_infinity. rewrite is_nan_spec, eqb_spec, abs_spec.
  change (Prim2SF infinity) with (S754_infinity false).
  destruct (Prim2SF x) as [s|s| |s m e]; simpl; try contradiction; auto.
Qed.

Lemma is_finite_opp (x : float) :
  is_finite x = true -> is_finite (- x) = true.
Proof.
  intros F. apply is_finite_class. rewrite opp_spec.
  pose proof (is_finite_spec x F) as C.
  destruct (Prim2SF x); simpl; auto.
Qed.

(** The difference of two finite doubles in order is not negative. *)
Lemma sub_nonneg (a b : float) :
  is_finite a = true -> is_finite b = true ->
  (a <=? b) = true -> (0 <=? b - a) = true.
Proof.
  intros Fa Fb H. apply leb_iff in H. destruct H as [H|H].
  - pose proof (sub_positive b a H) as P.
    rewrite leb_spec. change (Prim2SF 0) with (S754_zero false).
    destruct (Prim2SF (b - a)) as [s|s| |s m e]; try discriminate P;
      destruct s; try discriminate P; reflexivity.
  - rewrite eqb_spec in H. unfold SFeqb in H.
    destruct (SFcompare (Prim2SF a) (Prim2SF b)) as [[]|] eqn:C;
      try discriminate.
    destruct (SFcompare_Eq_inv _ _ C) as [E|[Za Zb]].
    + apply Prim2SF_inj in E. subst b.
      rewrite (sub_diag_finite a Fa). reflexivity.
    + rewrite leb_spec, sub_spec. change (Prim2SF 0) with (S754_zero false).
      destruct (Prim2SF a) as [sa| | |]; try discriminate Za.
      destruct (Prim2SF b) as [sb| | |]; try discriminate Zb.
      destruct sa, sb; reflexivity.
Qed.

End ViewRect.

(** X11. On a field whose axes are not empty and hold finite values, the
    visible rectangle of [Main] starts at the least longitude and at
    minus the greatest latitude, and its width and height are not
    negative. *)
Theorem Main_geoViewRect_well_formed (field : weatherData) :
  lons field <> [] -> lats field <> [] ->
  (forall v, In v (lons field) -> is_finite v = true) ->
  (forall v, In v (lats field) -> is_finite v = true) ->
  let r := Main_geoViewRect field in
  min_over (lons field) (rx r) /\
  (exists top, max_over (lats field) top /\ ry r = - top) /\
  (0 <=? rw r) = true /\
  (0 <=? rh r) = true.
Proof.
  intros Nlon Nlat Flon Flat. cbv zeta.
  assert (Hlon : exists v, In v (lons field) /\ is_nan v = false).
  { destruct (lons field) as [|v l]; [congruence|]. exists v.
    split; [simpl; auto|]. apply ViewRect.is_finite_not_nan.
    apply Flon. simpl; auto. }
  assert (Hlat : exists v, In v (lats field) /\ is_nan v = false).
  { destruct (lats field) as [|v l]; [congruence|]. exists v.
    split; [simpl; auto|]. apply ViewRect.is_finite_not_nan.
    apply Flat. simpl; auto. }
  destruct (Bounds.scan_bounds _ Hlon) as (A & B & C).
  destruct (Bounds.scan_bounds _ Hlat) as (D & E & F).
  unfold Main_geoViewRect, GetBounds.
  cbn [lonMin lonMax latMin latMax rx ry rw rh].
  split; [exact A|]. split; [eauto|]. split.
  - apply ViewRect.sub_nonneg; auto.
    + apply Flon. apply A.
    + apply Flon. apply B.
  - apply ViewRect.sub_nonneg.
    + apply ViewRect.is_finite_opp. apply Flat. apply E.
    + apply ViewRect.is_finite_opp. apply Flat. apply D.
    + apply ViewRect.leb_opp. assumption.
Qed.

Lemma Main_geoViewRect_well_formed_witness :
  let r := Main_geoViewRect uniform_field in
  min_over (lons uniform_field) (rx r) /\
  (exists top, max_over (lats uniform_field) top /\ ry r = - top) /\
  (0 <=? rw r) = true /\
  (0 <=? rh r) = true.
Proof.
  apply (Main_geoViewRect_well_formed uniform_field).
  - discriminate.
  - discriminate.
  - intros v [<-|[<-|[]]]; reflexivity.
  - intros v [<-|[]]; reflexivity.
Defined.

(** ** Further properties of [CoastlineOverlay] *)

Section CoastlineMore.
Variable MultiPolygon : Type.
Variable computeBoundingRect : MultiPolygon -> RectF.
Variable intersects : RectF -> RectF -> bool.
Variable view : RectF.

Let keep (c : MultiPolygon) : bool := intersects (computeBoundingRect c) view.

Let keep_indexed (ic : nat * MultiPolygon) : bool := keep (snd ic).

Let visit (acc : list nat) (ic : nat * MultiPolygon) : list nat :=
  if keep (snd ic) then acc ++ [fst ic] else acc.

Lemma visit_fold (l : list (nat * MultiPolygon)) :
  forall acc, fold_left visit l acc = acc ++ map fst (filter keep_indexed l).
Proof.
  induction l as [|ic l IH]; intros acc; cbn [fold_left filter].
  - rewrite app_nil_r. reflexivity.
  - rewrite IH.
    change (keep_indexed ic) with (keep (snd ic)).
    change (visit acc ic)
      with (if keep (snd ic) then acc ++ [fst ic] else acc).
    destruct (keep (snd ic)); cbn [map]; [|reflexivity].
    rewrite <- app_assoc. reflexivity.
Qed.

Lemma visible_list (loaded : list MultiPolygon) :
  visibleIndices_
    (CoastlineOverlay_new computeBoundingRect intersects loaded view) =
  map fst (filter keep_indexed (Indexed loaded)).
Proof.
  unfold CoastlineOverlay_new. cbn [visibleIndices_].
  apply (visit_fold (Indexed loaded) []).
Qed.

Lemma kept_sorted (l : list MultiPolygon) :
  forall start,
  StronglySorted lt
    (map fst (filter keep_indexed (combine (seq start (length l)) l))) /\
  Forall (fun i => start <= i < start + length l)%nat
    (map fst (filter keep_indexed (combine (seq start (length l)) l))).
Proof.
  induction l as [|a l IH]; intros start; cbn [length seq combine filter].
  - split; constructor.
  - destruct (IH (S start)) as [Srt Rng].
    assert (Rng' : Forall (fun i => start <= i < start + S (length l))%nat
                     (map fst (filter keep_indexed
                        (combine (seq (S start) (length l)) l)))).
    { eapply Forall_impl; [|exact Rng]. cbv beta. intros i Hi. lia. }
    change (keep_indexed (start, a)) with (keep a).
    destruct (keep a); cbn [map fst]; split; auto.
    + constructor; auto.
      eapply Forall_impl; [|exact Rng]. cbv beta. intros i Hi. lia.
    + constructor; auto. lia.
Qed.

Lemma frames_of_kept {F : Type} (g : MultiPolygon -> F)
    (l : list MultiPolygon) :
  forall pre,
  flat_map (fun i => match nth_error (pre ++ l) i with
                     | Some c => [g c]
                     | None => []
                     end)
    (map fst (filter keep_indexed (combine (seq (length pre) (length l)) l)))
  = map g (filter keep l).
Proof.
  induction l as [|a l IH]; intros pre; [reflexivity|].
  cbn [length seq combine filter].
  change (keep_indexed (length pre, a)) with (keep a).
  specialize (IH (pre ++ [a])).
  rewrite <- app_assoc, length_app in IH. cbn [app length] in IH.
  rewrite Nat.add_1_r in IH.
  destruct (keep a); cbn [map fst flat_map]; [|exact IH].
  rewrite nth_error_app2 by lia. rewrite Nat.sub_diag. cbn [nth_error app].
  rewrite IH. reflexivity.
Qed.

(** X12. After construction [visibleIndices_] is strictly increasing, so
    it holds no index twice, and every index is below the number of
    features. *)
Theorem visibleIndices_increasing (loaded : list MultiPolygon) :
  let visible :=
    visibleIndices_
      (CoastlineOverlay_new computeBoundingRect intersects loaded view) in
  StronglySorted lt visible /\
  NoDup visible /\
  Forall (fun i => i < length loaded)%nat visible.
Proof.
  cbv zeta. rewrite visible_list. unfold Indexed.
  destruct (kept_sorted loaded 0) as [Srt Rng].
  split; [exact Srt|]. split.
  - clear Rng. induction Srt as [|i l Srt IH Hi]; constructor; auto.
    intros Hin. rewrite Forall_forall in Hi. specialize (Hi i Hin). lia.
  - eapply Forall_impl; [|exact Rng]. cbv beta. intros i Hi. lia.
Qed.

(** X13. [draw] strokes exactly the features whose bounding rectangle
    intersects the rectangle given at construction, once each and in the
    order of the feature list, all with the line thickness
    [1 / maxScaling] and under the one matrix computed for the call. *)
Theorem draw_frames (loaded : list MultiPolygon) (w h : Z)
    (maxScaling : float) (destRect : RectF)
    (lonMin lonMax yMin yMax : float) :
  let overlay :=
    setGridSize
      (CoastlineOverlay_new computeBoundingRect intersects loaded view)
      w h in
  draw MultiPolygon overlay maxScaling destRect lonMin lonMax yMin yMax =
  map (fun c =>
         mkFrameCall MultiPolygon c (1 / maxScaling)
           (draw_transform overlay destRect lonMin lonMax yMin yMax))
      (filter (fun c => intersects (computeBoundingRect c) view) loaded).
Proof.
  cbv zeta. unfold draw.
  change (visibleIndices_ (setGridSize
            (CoastlineOverlay_new computeBoundingRect intersects loaded view)
            w h))
    with (visibleIndices_
            (CoastlineOverlay_new computeBoundingRect intersects loaded view)).
  change (countries_ (setGridSize
            (CoastlineOverlay_new computeBoundingRect intersects loaded view)
            w h))
    with loaded.
  rewrite visible_list. unfold Indexed.
  apply (frames_of_kept _ loaded []).
Qed.

End CoastlineMore.

(** ** Properties of [LoadPMSL] *)

Module Load.




End Load.




(** The sample file loads as the field [[1013, 1013.25], [1000, 999.5]]
    and the file without msl throws. *)
Example LoadPMSL_sample :
  m_data (pmsl (fst (LoadPMSL no_lons_field sample_nc))) =
    [1013; 1013.25; 1000; 999.5] /\
  LoadPMSL no_lons_field no_msl_nc =
    (no_lons_field, Thrown NcNames.not_found).
Proof. split; vm_compute; reflexivity. Qed.
